(** * Test-output and coverage-report parsing of the .NET extension

    A shallow embedding of [TestRunner.parseTestResults] and of the class
    [CoverageProvider] ([parseCoverageFile], [parseLcovReport],
    [getOverallCoverage]), with [ConfigManager.getCoverageFormat] and the
    JavaScript string and regular-expression primitives they call.

    - JavaScript strings are sequences of UTF-16 code units ([list N]).
    - JavaScript numbers are IEEE 754 binary64 values: the kernel's primitive
      floats.
    - A [Map] is an association list kept in insertion order, the order in
      which [Map.prototype.values] iterates. *)

From Stdlib Require Import List String Ascii NArith ZArith Bool Lia Floats.
Import ListNotations.

Set Implicit Arguments.

(** ** JavaScript strings *)

Module JS.

Definition jsstring := list N.

(** An ASCII literal as a JavaScript string. *)
Definition lit (s : string) : jsstring :=
  List.map N_of_ascii (list_ascii_of_string s).

Fixpoint str_eqb (a b : jsstring) : bool :=
  match a, b with
  | [], [] => true
  | x :: a', y :: b' => N.eqb x y && str_eqb a' b'
  | _, _ => false
  end.

(** ECMAScript [LineTerminator]: LF, CR, LS, PS. *)
Definition isLineTerminator (c : N) : bool :=
  (N.eqb c 10 || N.eqb c 13 || N.eqb c 8232 || N.eqb c 8233)%N.

(** ECMAScript [WhiteSpace]: TAB, VT, FF, SP, NBSP, ZWNBSP and the Unicode
    space separators. *)
Definition isWhiteSpace (c : N) : bool :=
  (N.eqb c 9 || N.eqb c 11 || N.eqb c 12 || N.eqb c 32 || N.eqb c 160
   || N.eqb c 5760 || (N.leb 8192 c && N.leb c 8202) || N.eqb c 8239
   || N.eqb c 8287 || N.eqb c 12288 || N.eqb c 65279)%N.

(** What [\s] matches and what [String.prototype.trim] strips. *)
Definition isSpace (c : N) : bool := isWhiteSpace c || isLineTerminator c.

Definition isDigit (c : N) : bool := (N.leb 48 c && N.leb c 57)%N.

Fixpoint dropWhile (p : N -> bool) (s : jsstring) : jsstring :=
  match s with
  | [] => []
  | c :: s' => if p c then dropWhile p s' else s
  end.

(** [s.trim()] *)
Definition trim (s : jsstring) : jsstring :=
  rev (dropWhile isSpace (rev (dropWhile isSpace s))).

(** [s.startsWith(p)] *)
Fixpoint startsWith (s p : jsstring) : bool :=
  match p, s with
  | [], _ => true
  | x :: p', y :: s' => N.eqb x y && startsWith s' p'
  | _ :: _, [] => false
  end.

(** [s.endsWith(p)] *)
Definition endsWith (s p : jsstring) : bool := startsWith (rev s) (rev p).

(** [s.includes(p)] *)
Fixpoint includes (s p : jsstring) : bool :=
  startsWith s p ||
  match s with
  | [] => false
  | _ :: s' => includes s' p
  end.

(** [s.substring(n)] *)
Definition substring (n : nat) (s : jsstring) : jsstring := skipn n s.

(** [s.split('\n')]: never empty, [''.split('\n')] is [['']]. *)
Fixpoint split_nl (s : jsstring) : list jsstring :=
  match s with
  | [] => [[]]
  | c :: s' =>
      if N.eqb c 10 then [] :: split_nl s'
      else match split_nl s' with
           | l :: ls => (c :: l) :: ls
           | [] => [[c]]
           end
  end.

(** [a.join('\n')] *)
Fixpoint join_nl (a : list jsstring) : jsstring :=
  match a with
  | [] => []
  | [l] => l
  | l :: a' => l ++ 10%N :: join_nl a'
  end.

End JS.

Import JS.

(** ** Regular expressions

    The backtracking matcher of the ECMAScript specification, in
    continuation-passing style, for the constructs the two parsers use. *)

Module Regex.

Inductive regex : Type :=
| Eps                              (* the empty pattern *)
| Chr (c : N)                      (* a pattern character *)
| Cls (p : N -> bool)              (* a character class: \s, \d, . *)
| Seq (r1 r2 : regex)              (* r1 r2 *)
| Alt (r1 r2 : regex)              (* r1|r2 *)
| Star (r : regex)                 (* r*, greedy *)
| Grp (n : nat) (r : regex)        (* capturing group number n *)
| Bol                              (* ^ (no m flag) *)
| Eol.                             (* $ (no m flag) *)

(** [r+] and a greedy [r?] (for an [r] that matches no empty string). *)
Definition Plus (r : regex) : regex := Seq r (Star r).
Definition Opt (r : regex) : regex := Alt r Eps.

Fixpoint Str (s : jsstring) : regex :=
  match s with
  | [] => Eps
  | c :: s' => Seq (Chr c) (Str s')
  end.

Definition space : regex := Cls isSpace.
Definition digit : regex := Cls isDigit.
(** [.] without the s flag: anything but a line terminator. *)
Definition dot : regex := Cls (fun c => negb (isLineTerminator c)).

(** [Canonicalize] under the i flag.  For a code unit below 128 it is
    [toUpperCase].  A code unit from 128 on is never canonicalized to one below
    128, and every pattern character matched under the i flag here is below
    128, so leaving those unchanged decides the same comparisons. *)
Definition canonicalize (ic : bool) (c : N) : N :=
  if ic && (N.leb 97 c && N.leb c 122)%N then (c - 32)%N else c.

(** The match state: the index reached, the input from there on, and the
    captures so far (latest first). *)
Record mstate : Type := MState {
  pos : nat;
  rest : jsstring;
  caps : list (nat * jsstring)
}.

Definition advance (x : mstate) (s : jsstring) : mstate :=
  MState (S (pos x)) s (caps x).

Definition capture (n : nat) (x y : mstate) : mstate :=
  MState (pos y) (rest y) ((n, firstn (pos y - pos x) (rest x)) :: caps y).

Section Exec.
Variable A : Type.
Variable ic : bool.

Fixpoint exec (r : regex) (x : mstate) (k : mstate -> option A) : option A :=
  match r with
  | Eps => k x
  | Chr c =>
      match rest x with
      | d :: s =>
          if N.eqb (canonicalize ic d) (canonicalize ic c)
          then k (advance x s) else None
      | [] => None
      end
  | Cls p =>
      match rest x with
      | d :: s => if p d then k (advance x s) else None
      | [] => None
      end
  | Seq r1 r2 => exec r1 x (fun y => exec r2 y k)
  | Alt r1 r2 =>
      match exec r1 x k with
      | Some a => Some a
      | None => exec r2 x k
      end
  | Star r1 =>
      (* every round has to move the index, so there are no more rounds than
         code units left *)
      (fix loop (fuel : nat) (x : mstate) : option A :=
         match fuel with
         | O => k x
         | S fuel' =>
             match exec r1 x (fun y => if Nat.eqb (pos y) (pos x) then None
                                       else loop fuel' y) with
             | Some a => Some a
             | None => k x
             end
         end) (List.length (rest x)) x
  | Grp n r1 => exec r1 x (fun y => k (capture n x y))
  | Bol => if Nat.eqb (pos x) 0 then k x else None
  | Eol => match rest x with [] => k x | _ :: _ => None end
  end.

End Exec.

(** [RegExpBuiltinExec] without the g and y flags: the first index, from the
    left, at which the pattern matches. *)
Fixpoint search_from (ic : bool) (r : regex) (i : nat) (s : jsstring)
  : option mstate :=
  match exec ic r (MState i s []) (fun y => Some y) with
  | Some y => Some y
  | None =>
      match s with
      | [] => None
      | _ :: s' => search_from ic r (S i) s'
      end
  end.

(** [s.match(r)]: the final match state, or [None] for [null]. *)
Definition regex_match (ic : bool) (r : regex) (s : jsstring) : option mstate :=
  search_from ic r 0 s.

Definition test (ic : bool) (r : regex) (s : jsstring) : bool :=
  match regex_match ic r s with Some _ => true | None => false end.

Fixpoint lookup_cap (n : nat) (c : list (nat * jsstring)) : jsstring :=
  match c with
  | [] => []
  | (m, t) :: c' => if Nat.eqb m n then t else lookup_cap n c'
  end.

(** [match[n]] *)
Definition group (n : nat) (m : mstate) : jsstring := lookup_cap n (caps m).

(** *** The patterns read as relations

    What a pattern matches, without the order in which the matcher tries the
    alternatives. *)

Section Sem.
Variable ic : bool.

(** [Matches r x y]: the pattern [r] can take the match state [x] to [y]. *)
Inductive Matches : regex -> mstate -> mstate -> Prop :=
| M_Eps x : Matches Eps x x
| M_Chr c d s x :
    rest x = d :: s -> canonicalize ic d = canonicalize ic c ->
    Matches (Chr c) x (advance x s)
| M_Cls p d s x :
    rest x = d :: s -> p d = true -> Matches (Cls p) x (advance x s)
| M_Seq r1 r2 x y z :
    Matches r1 x y -> Matches r2 y z -> Matches (Seq r1 r2) x z
| M_AltL r1 r2 x y : Matches r1 x y -> Matches (Alt r1 r2) x y
| M_AltR r1 r2 x y : Matches r2 x y -> Matches (Alt r1 r2) x y
| M_Star0 r x : Matches (Star r) x x
| M_StarS r x y z :
    Matches r x y -> pos y <> pos x -> Matches (Star r) y z ->
    Matches (Star r) x z
| M_Grp n r x y : Matches r x y -> Matches (Grp n r) x (capture n x y)
| M_Bol x : pos x = 0 -> Matches Bol x x
| M_Eol x : rest x = [] -> Matches Eol x x.

End Sem.

Arguments M_Eps {ic}.
Arguments M_Chr {ic}.
Arguments M_Cls {ic}.
Arguments M_Seq {ic}.
Arguments M_AltL {ic}.
Arguments M_AltR {ic}.
Arguments M_Star0 {ic}.
Arguments M_StarS {ic}.
Arguments M_Grp {ic}.
Arguments M_Bol {ic}.
Arguments M_Eol {ic}.

End Regex.

Import Regex.

Declare Scope regex_scope.
Delimit Scope regex_scope with re.
Notation "r1 >> r2" := (Seq r1 r2) (at level 61, right associativity) : regex_scope.
Local Open Scope regex_scope.

(** ** JavaScript numbers *)

Module Num.

Local Open Scope float_scope.

(** The Number value for a mathematical integer (round to nearest, ties to
    even, infinity on overflow). *)
Definition of_Z (z : Z) : float := SF2Prim (binary_normalize prec emax z 0 false).

Definition of_nat (n : nat) : float := of_Z (Z.of_nat n).

(** The Number value for the ratio [m / d] of a natural [m] and a positive [d]:
    the quotient is taken to 64 bits or more, with one more bit that records
    whether a remainder is left, and then rounded once. *)
Definition of_ratio (m d : Z) : float :=
  if (m =? 0)%Z then 0
  else
    let s := (64 + Z.log2 d - Z.log2 m)%Z in
    let (q, r) := if (0 <=? s)%Z then Z.div_eucl (m * 2 ^ s) d
                  else Z.div_eucl m (d * 2 ^ (- s)) in
    let sticky := if (r =? 0)%Z then 0%Z else 1%Z in
    SF2Prim (binary_normalize prec emax (2 * q + sticky) (- s - 1) false).

Fixpoint takeDigits (s : jsstring) : jsstring :=
  match s with
  | c :: s' => if isDigit c then c :: takeDigits s' else []
  | [] => []
  end.

Fixpoint digitsValue (acc : Z) (s : jsstring) : Z :=
  match s with
  | [] => acc
  | c :: s' => digitsValue (10 * acc + (Z.of_N c - 48)) s'
  end.

(** [parseInt(s)] on a text that starts with a decimal digit or with none of
    the characters [parseInt] gives a meaning (the captures of [\d+] are of the
    first kind): the value of the longest prefix of digits, [NaN] without one. *)
Definition parseInt (s : jsstring) : float :=
  match takeDigits s with
  | [] => nan
  | ds => of_Z (digitsValue 0 ds)
  end.

(** [parseFloat(s)] on a text without sign, exponent or leading white space
    (the captures of [\d+(?:\.\d+)?] have none): the value of the longest
    prefix of the shape digits, or digits [.] digits; [NaN] without a digit. *)
Definition parseFloat (s : jsstring) : float :=
  let ip := takeDigits s in
  let fp := match skipn (List.length ip) s with
            | 46%N :: s' => takeDigits s'
            | _ => []
            end in
  match ip ++ fp with
  | [] => nan
  | ds => of_ratio (digitsValue 0 ds) (10 ^ Z.of_nat (List.length fp))
  end.

End Num.

(** ** The test-output parser (class [TestRunner]) *)

Module TestRunner.

Inductive Outcome : Type := Passed | Failed | Skipped.

(** [Partial<TestResult>]: every field may be absent. *)
Record TestResult : Type := mkTestResult {
  name : option jsstring;
  outcome : option Outcome;
  duration : option float;
  errorMessage : option jsstring;
  stackTrace : option jsstring
}.

(** [{ name: n }] *)
Definition newTest (n : jsstring) : TestResult :=
  mkTestResult (Some n) None None None None.

Definition setName (t : TestResult) (n : jsstring) : TestResult :=
  mkTestResult (Some n) (outcome t) (duration t) (errorMessage t) (stackTrace t).
Definition setOutcome (t : TestResult) (o : Outcome) : TestResult :=
  mkTestResult (name t) (Some o) (duration t) (errorMessage t) (stackTrace t).
Definition setDuration (t : TestResult) (d : float) : TestResult :=
  mkTestResult (name t) (outcome t) (Some d) (errorMessage t) (stackTrace t).
Definition setErrorMessage (t : TestResult) (e : jsstring) : TestResult :=
  mkTestResult (name t) (outcome t) (duration t) (Some e) (stackTrace t).
Definition setStackTrace (t : TestResult) (s : jsstring) : TestResult :=
  mkTestResult (name t) (outcome t) (duration t) (errorMessage t) (Some s).

(** [!currentTest.name]: the name is [undefined] or the empty string. *)
Definition nameUnset (t : TestResult) : bool :=
  match name t with
  | None | Some [] => true
  | Some (_ :: _) => false
  end.

(** The check mark U+2713 and the ballot x U+2717. *)
Definition checkMark : N := 10003.
Definition ballotX : N := 10007.

(** [/^\s*\u2713\s+/] and [/^\s*\u2717\s+/], written with the glyphs themselves. *)
Definition re_passGlyph : regex := Bol >> Star space >> Chr checkMark >> Plus space.
Definition re_failGlyph : regex := Bol >> Star space >> Chr ballotX >> Plus space.
(** [/^\s*Test Name:\s*(.+)$/i] *)
Definition re_testName : regex :=
  Bol >> Star space >> Str (lit "Test Name:") >> Star space >> Grp 1 (Plus dot) >> Eol.
(** [/^\s*Test Method:\s*(.+)$/i] *)
Definition re_testMethod : regex :=
  Bol >> Star space >> Str (lit "Test Method:") >> Star space >> Grp 1 (Plus dot) >> Eol.
(** [/^\s*Duration:\s*(.+)$/i] *)
Definition re_duration : regex :=
  Bol >> Star space >> Str (lit "Duration:") >> Star space >> Grp 1 (Plus dot) >> Eol.
(** [/(\d+(?:\.\d+)?)\s*(ms|s)/] *)
Definition re_durationValue : regex :=
  Grp 1 (Plus digit >> Opt (Chr 46 >> Plus digit))
  >> Star space >> Grp 2 (Alt (Str (lit "ms")) (Str (lit "s"))).
(** [/^\s*Error Message:\s*(.+)$/i] *)
Definition re_errorMessage : regex :=
  Bol >> Star space >> Str (lit "Error Message:") >> Star space >> Grp 1 (Plus dot) >> Eol.
(** [/^\s*Stack Trace:/i] *)
Definition re_stackTrace : regex :=
  Bol >> Star space >> Str (lit "Stack Trace:").

(** The loop state: [results] and [currentTest]. *)
Record state : Type := mkState {
  results : list TestResult;
  currentTest : option TestResult
}.

Definition init : state := mkState [] None.

(** The three sealing branches: set the outcome, push, clear the slot. *)
Definition seal (o : Outcome) (st : state) : state :=
  match currentTest st with
  | Some t => mkState (results st ++ [setOutcome t o]) None
  | None => st
  end.

(** [lines[i]] for an index within the array. *)
Definition lineAt (lines : list jsstring) (i : nat) : jsstring := nth i lines [].

(** The inner loop of the stack-trace branch,
    [for (let j = i + 1; j < lines.length && j < i + 20; j++)], with [acc] for
    [stackTraceLines]; it runs fewer than [lines.length] times. *)
Fixpoint stackLoop (lines : list jsstring) (i j fuel : nat) (acc : list jsstring)
  : list jsstring :=
  match fuel with
  | O => acc
  | S fuel' =>
      if Nat.ltb j (List.length lines) && Nat.ltb j (i + 20) then
        match trim (lineAt lines j) with
        | _ :: _ => stackLoop lines i (S j) fuel' (acc ++ [lineAt lines j])
        | [] => acc
        end
      else acc
  end.

Definition stackTraceLines (lines : list jsstring) (i : nat) : list jsstring :=
  stackLoop lines i (i + 1) (List.length lines) [].

(** The duration branch, once the marker has matched with [match[1]] = [m1]. *)
Definition durationBranch (m1 : jsstring) (t : TestResult) : TestResult :=
  let durationStr := trim m1 in
  match regex_match false re_durationValue durationStr with
  | Some durationMatch =>
      let value := Num.parseFloat (group 1 durationMatch) in
      setDuration t (if str_eqb (group 2 durationMatch) (lit "s")
                     then PrimFloat.mul value 1000 else value)
  | None => t
  end.

(** One iteration of the loop over [lines], at index [i]. *)
Definition step (lines : list jsstring) (st : state) (i : nat) : state :=
  let line := lineAt lines i in
  if includes line (lit "Passed!") || test false re_passGlyph line then
    seal Passed st
  else if includes line (lit "Failed!") || test false re_failGlyph line then
    seal Failed st
  else if includes line (lit "Skipped") then
    seal Skipped st
  else
    match regex_match true re_testName line with
    | Some m => mkState (results st) (Some (newTest (trim (group 1 m))))
    | None =>
    match regex_match true re_testMethod line with
    | Some m =>
        match currentTest st with
        | Some t =>
            if nameUnset t
            then mkState (results st) (Some (setName t (trim (group 1 m))))
            else st
        | None => st
        end
    | None =>
    match regex_match true re_duration line with
    | Some m =>
        match currentTest st with
        | Some t => mkState (results st) (Some (durationBranch (group 1 m) t))
        | None => st
        end
    | None =>
    match regex_match true re_errorMessage line with
    | Some m =>
        match currentTest st with
        | Some t => mkState (results st) (Some (setErrorMessage t (trim (group 1 m))))
        | None => st
        end
    | None =>
    if test true re_stackTrace line then
      match currentTest st with
      | Some t =>
          mkState (results st)
                  (Some (setStackTrace t (join_nl (stackTraceLines lines i))))
      | None => st
      end
    else st
    end end end end.

(** The loop [for (let i = 0; i < lines.length; i++)] after its first [n]
    iterations, for [n] up to [lines.length]. *)
Definition run (lines : list jsstring) (n : nat) : state :=
  fold_left (step lines) (seq 0 n) init.

(** The whole loop; the match of the summary line after it has an empty
    body. *)
Definition parseLines (lines : list jsstring) : list TestResult :=
  results (run lines (List.length lines)).

Definition parseTestResults (output : jsstring) : list TestResult :=
  parseLines (split_nl output).

(** *** Vocabulary of the statements *)

(** The three terminal tests of the loop body, in its order. *)
Definition passLine (l : jsstring) : bool :=
  includes l (lit "Passed!") || test false re_passGlyph l.
Definition failLine (l : jsstring) : bool :=
  includes l (lit "Failed!") || test false re_failGlyph l.
Definition skipLine (l : jsstring) : bool := includes l (lit "Skipped").

Definition isTerminal (l : jsstring) : bool :=
  passLine l || failLine l || skipLine l.

(** [lines[j].trim()] is truthy. *)
Definition nonBlank (l : jsstring) : bool :=
  match trim l with
  | [] => false
  | _ :: _ => true
  end.

Fixpoint takeWhile (p : jsstring -> bool) (ls : list jsstring) : list jsstring :=
  match ls with
  | l :: ls' => if p l then l :: takeWhile p ls' else []
  | [] => []
  end.

(** The shape the duration pattern looks for: digits, or digits [.] digits;
    white space; [ms] or [s]. *)
Definition digits (s : jsstring) : Prop :=
  s <> [] /\ Forall (fun d => isDigit d = true) s.
Definition wellFormedNumber (s : jsstring) : Prop :=
  exists ip, digits ip /\ (s = ip \/ exists fp, digits fp /\ s = ip ++ 46%N :: fp).
Definition spaces (w : jsstring) : Prop := Forall (fun d => isSpace d = true) w.
Definition isUnit (u : jsstring) : Prop := u = lit "ms" \/ u = lit "s".
Definition holdsDuration (text : jsstring) : Prop :=
  exists pre num ws u post,
    text = pre ++ num ++ ws ++ u ++ post /\
    wellFormedNumber num /\ spaces ws /\ isUnit u.

(** Sealed records carry an outcome, the record in the slot carries none. *)
Definition sealedOnly (st : state) : Prop :=
  Forall (fun t => outcome t <> None) (results st) /\
  forall t, currentTest st = Some t -> outcome t = None.

End TestRunner.

(** ** The coverage provider (class [CoverageProvider]) *)

Module Coverage.

Local Open Scope float_scope.

Record LineInfo : Type := mkLine {
  line : float;
  covered : bool
}.

Record CoverageData : Type := mkCoverage {
  filePath : jsstring;
  coverage : float;
  lines : list LineInfo
}.

(** [Map<string, CoverageData>], in insertion order. *)
Definition CoverageMap : Type := list (jsstring * CoverageData).

(** [m.get(k)] *)
Fixpoint map_get (m : CoverageMap) (k : jsstring) : option CoverageData :=
  match m with
  | [] => None
  | (k', v) :: m' => if str_eqb k' k then Some v else map_get m' k
  end.

(** [m.set(k, v)]: an entry that exists keeps its place and takes the new
    value, a new one goes to the end. *)
Fixpoint map_set (m : CoverageMap) (k : jsstring) (v : CoverageData) : CoverageMap :=
  match m with
  | [] => [(k, v)]
  | (k', v') :: m' =>
      if str_eqb k' k then (k', v) :: m' else (k', v') :: map_set m' k v
  end.

(** *** Format dispatch *)

(** [ConfigManager.getCoverageFormat]: the setting, ['cobertura'] when unset. *)
Definition getCoverageFormat (setting : option jsstring) : jsstring :=
  match setting with
  | Some f => f
  | None => lit "cobertura"
  end.

Inductive ReportParser : Type := CoberturaReport | JsonReport | LcovReport.

(** [parseCoverageFile]: which of [parseCoberturaReport], [parseJsonReport],
    [parseLcovReport] is called on the file, if any. *)
Definition parseCoverageFile (path format : jsstring) : option ReportParser :=
  if str_eqb format (lit "cobertura") || endsWith path (lit ".xml") then
    Some CoberturaReport
  else if str_eqb format (lit "json") || endsWith path (lit ".json") then
    Some JsonReport
  else if str_eqb format (lit "lcov") || endsWith path (lit ".lcov") then
    Some LcovReport
  else None.

(** *** The LCOV parser *)

(** [/^DA:(\d+),(\d+)$/] *)
Definition re_DA : regex :=
  Bol >> Str (lit "DA:") >> Grp 1 (Plus digit) >> Chr 44 >> Grp 2 (Plus digit) >> Eol.

(** The loop state of [parseLcovReport], with the map it writes to. *)
Record state : Type := mkState {
  currentFile : jsstring;
  currentCoverage : option CoverageData;
  coverageData : CoverageMap
}.

Definition init (store : CoverageMap) : state := mkState [] None store.

Definition pushLine (c : CoverageData) (l : LineInfo) : CoverageData :=
  mkCoverage (filePath c) (coverage c) (lines c ++ [l]).

(** [lines.filter(l => l.covered).length] *)
Definition coveredCount (ls : list LineInfo) : nat :=
  List.length (filter covered ls).

(** The record as [end_of_record] leaves it before it is stored. *)
Definition close (c : CoverageData) : CoverageData :=
  match lines c with
  | _ :: _ =>
      mkCoverage (filePath c)
        (Num.of_nat (coveredCount (lines c)) / Num.of_nat (List.length (lines c)) * 100)
        (lines c)
  | [] => c
  end.

(** One iteration of [for (const line of lines)].  A condition
    [a && currentCoverage] is a match on the record, looked at when [a] holds. *)
Definition step (st : state) (ln : jsstring) : state :=
  if startsWith ln (lit "SF:") then
    let f := substring 3 ln in
    mkState f (Some (mkCoverage f 0 [])) (coverageData st)
  else
    match (if startsWith ln (lit "DA:") then currentCoverage st else None) with
    | Some c =>
        match regex_match false re_DA ln with
        | Some m =>
            let lineNum := Num.parseInt (group 1 m) in
            let hits := Num.parseInt (group 2 m) in
            mkState (currentFile st)
                    (Some (pushLine c (mkLine lineNum (PrimFloat.ltb 0 hits))))
                    (coverageData st)
        | None => st
        end
    | None =>
        match (if str_eqb ln (lit "end_of_record") then currentCoverage st else None) with
        | Some c =>
            mkState (currentFile st) None
                    (map_set (coverageData st) (currentFile st) (close c))
        | None => st
        end
    end.

Definition scan (lns : list jsstring) (st : state) : state := fold_left step lns st.

(** [parseLcovReport] on a file of the given content: the map afterwards. *)
Definition parseLcovReport (content : jsstring) (store : CoverageMap) : CoverageMap :=
  coverageData (scan (split_nl content) (init store)).

(** *** Summary *)

Definition totalCoverage (store : CoverageMap) : float :=
  fold_left (fun total kv => total + coverage (snd kv)) store 0.

Definition getOverallCoverage (store : CoverageMap) : float :=
  match store with
  | [] => 0
  | _ :: _ => totalCoverage store / Num.of_nat (List.length store)
  end.

Definition getCoverageForFile (store : CoverageMap) (path : jsstring)
  : option CoverageData := map_get store path.

(** *** The XML and JSON parsers

    [parseCoberturaReport] and [parseJsonReport] read the document with xml2js
    and with [JSON.parse]; for each class, or each document, their loops build
    a record whose [filePath] is the file name and call
    [coverageData.set(fileName, record)].  Given the records in the order of
    the document, this is what they do to the map. *)
Definition setRecords (records : list CoverageData) (store : CoverageMap)
  : CoverageMap :=
  fold_left (fun s r => map_set s (filePath r) r) records store.

(** A report as one of the parsers takes it in. *)
Inductive Report : Type :=
| LcovText (content : jsstring)
| Document (records : list CoverageData).

Definition parseReport (rep : Report) (store : CoverageMap) : CoverageMap :=
  match rep with
  | LcovText content => parseLcovReport content store
  | Document records => setRecords records store
  end.

(** *** Vocabulary of the statements *)

(** The percentage of a closed record, as the specification words it: covered
    lines over tracked lines, times 100, and 0 without tracked lines. *)
Definition percentage (ls : list LineInfo) : float :=
  match ls with
  | [] => 0
  | _ :: _ => Num.of_nat (coveredCount ls) / Num.of_nat (List.length ls) * 100
  end.

(** The unweighted mean of a sequence of numbers, summed from the left. *)
Definition mean (xs : list float) : float :=
  match xs with
  | [] => 0
  | _ :: _ => fold_left PrimFloat.add xs 0 / Num.of_nat (List.length xs)
  end.

Definition percentages (store : CoverageMap) : list float :=
  List.map (fun kv => coverage (snd kv)) store.

(** Keys are distinct and every record is stored under its own path. *)
Definition keyed (m : CoverageMap) : Prop :=
  NoDup (List.map fst m) /\ forall k r, In (k, r) m -> filePath r = k.

(** The record in progress is the one of [currentFile] and has no percentage
    yet. *)
Definition inProgress (st : state) : Prop :=
  forall c, currentCoverage st = Some c ->
            filePath c = currentFile st /\ coverage c = 0.

Definition endOfRecord : jsstring := lit "end_of_record".

End Coverage.

(** ** More of the string and array primitives *)

Module Text.

(** [s.split(c)] for a separator [c] of one code unit. *)
Fixpoint splitOn (c : N) (s : jsstring) : list jsstring :=
  match s with
  | [] => [[]]
  | d :: s' =>
      if N.eqb d c then [] :: splitOn c s'
      else match splitOn c s' with
           | l :: ls => (d :: l) :: ls
           | [] => [[d]]
           end
  end.

(** [a.join(sep)] *)
Fixpoint joinWith (sep : jsstring) (a : list jsstring) : jsstring :=
  match a with
  | [] => []
  | [l] => l
  | l :: a' => l ++ sep ++ joinWith sep a'
  end.


(** [a || b] on strings. *)
Definition orElse (a b : jsstring) : jsstring :=
  match a with
  | [] => b
  | _ :: _ => a
  end.

End Text.

Import Text.

(** ** Test discovery and the stored test runs (class [TestRunner]) *)

Module TestStore.

Import TestRunner.

(** The pattern of [discoverTests]: start, [\s*], a group of [\S+] and any
    number of [.], end. *)
Definition nonspace : regex := Cls (fun c => negb (isSpace c)).
Definition re_listed : regex :=
  Bol >> Star space >> Grp 1 (Plus nonspace >> Star dot) >> Eol.

(** The body of the loop of [discoverTests] over the lines of the listing. *)
Definition discoverLine (testNames : list jsstring) (line : jsstring)
  : list jsstring :=
  match regex_match false re_listed line with
  | Some m =>
      match trim (group 1 m) with
      | [] => testNames
      | n => testNames ++ [n]
      end
  | None => testNames
  end.

(** [discoverTests] once [listTests] has returned its output. *)
Definition discoverTests (output : jsstring) : list jsstring :=
  fold_left discoverLine (split_nl output) [].

(** [Map<string, TestResult[]>], in insertion order. *)
Definition TestMap : Type := list (jsstring * list TestResult).

Fixpoint tm_get (m : TestMap) (k : jsstring) : option (list TestResult) :=
  match m with
  | [] => None
  | (k', v) :: m' => if str_eqb k' k then Some v else tm_get m' k
  end.

Fixpoint tm_set (m : TestMap) (k : jsstring) (v : list TestResult) : TestMap :=
  match m with
  | [] => [(k, v)]
  | (k', v') :: m' =>
      if str_eqb k' k then (k', v) :: m' else (k', v') :: tm_set m' k v
  end.

(** [runTestsForProject]: [cli] is the output of [dotnetCli.runTests], or
    [None] when it throws; the map afterwards and the value returned. *)
Definition runTestsForProject (testResults : TestMap) (projectPath : jsstring)
           (cli : option jsstring) : TestMap * list TestResult :=
  match cli with
  | Some output =>
      let results := parseTestResults output in
      (tm_set testResults projectPath results, results)
  | None => (testResults, [])
  end.

(** The loop of [runAllTests] over the test projects, each run with what the
    command line gave for it. *)
Definition runAll (testResults : TestMap) (runs : list (jsstring * option jsstring))
  : TestMap :=
  fold_left (fun m r => fst (runTestsForProject m (fst r) (snd r))) runs testResults.

(** [getTestResults(projectPath?)]: an absent and an empty path are falsy. *)
Definition getTestResults (testResults : TestMap) (projectPath : option jsstring)
  : list TestResult :=
  match projectPath with
  | Some (c :: p) =>
      match tm_get testResults (c :: p) with
      | Some results => results
      | None => []
      end
  | Some [] | None => flat_map snd testResults
  end.

Record TestSummary : Type := mkSummary {
  passed : nat;
  failed : nat;
  skipped : nat;
  total : nat
}.

Definition outcome_eqb (a b : Outcome) : bool :=
  match a, b with
  | Passed, Passed | Failed, Failed | Skipped, Skipped => true
  | _, _ => false
  end.

(** [r.outcome === o] *)
Definition hasOutcome (o : Outcome) (r : TestResult) : bool :=
  match outcome r with
  | Some o' => outcome_eqb o' o
  | None => false
  end.

Definition getTestSummary (testResults : TestMap) : TestSummary :=
  let allResults := getTestResults testResults None in
  mkSummary (List.length (filter (hasOutcome Passed) allResults))
            (List.length (filter (hasOutcome Failed) allResults))
            (List.length (filter (hasOutcome Skipped) allResults))
            (List.length allResults).

(** *** Vocabulary of the statements *)

(** A line that opens a record: no terminal marker, and a Test Name line. *)
Definition opensRecord (l : jsstring) : bool :=
  negb (isTerminal l) && test true re_testName l.

(** Every sealed record has a name and an outcome, and the record in the slot
    has a name. *)
Definition complete (st : state) : Prop :=
  Forall (fun t => name t <> None /\ outcome t <> None) (results st) /\
  forall t, currentTest st = Some t -> name t <> None.

(** One for a record in the slot. *)
Definition openCount (st : state) : nat :=
  match currentTest st with Some _ => 1 | None => 0 end.

(** How many of the first [n] lines satisfy [p]. *)
Definition countLines (p : jsstring -> bool) (lines : list jsstring) (n : nat) : nat :=
  List.length (filter p (firstn n lines)).

(** Every stored record has an outcome. *)
Definition sealedMap (m : TestMap) : Prop :=
  Forall (fun kv => Forall (fun r => outcome r <> None) (snd kv)) m.

(** The results stored for a project, none for a project never run. *)
Definition storedFor (m : TestMap) (k : jsstring) : list TestResult :=
  match tm_get m k with
  | Some results => results
  | None => []
  end.

(** A line of a listing that names a test: something other than white space,
    with no line terminator from there on. *)
Definition listsTest (l : jsstring) : bool :=
  match dropWhile isSpace l with
  | [] => false
  | t => forallb (fun c => negb (isLineTerminator c)) t
  end.

End TestStore.

(** ** More on LCOV reports *)

Module Lcov.

Import Coverage.

(** What a line adds to the record in progress: the entry of a well-formed
    [DA:] line, nothing for any other line. *)
Definition daEntry (ln : jsstring) : list LineInfo :=
  if startsWith ln (lit "DA:") then
    match regex_match false re_DA ln with
    | Some m => [mkLine (Num.parseInt (group 1 m))
                        (PrimFloat.ltb 0 (Num.parseInt (group 2 m)))]
    | None => []
    end
  else [].

Definition daEntries (body : list jsstring) : list LineInfo := flat_map daEntry body.

(** A line inside a record: neither an [SF:] line nor [end_of_record]. *)
Definition insideRecord (ln : jsstring) : bool :=
  negb (startsWith ln (lit "SF:")) && negb (str_eqb ln (lit "end_of_record")).

End Lcov.

(** ** Project files (class [DotNetCli], [getProjectInfo]) *)

Module Project.

Inductive ProjectType : Type := Console | Web | Library | TestProject | Unknown.

Record DotNetProject : Type := mkProject {
  path : jsstring;
  name : jsstring;
  type : ProjectType;
  targetFramework : jsstring;
  isTestProject : bool
}.

(** [[^c]] *)
Definition notChar (c : N) : regex := Cls (fun d => negb (N.eqb d c)).

(** The two patterns of the target framework, both under the i flag: the
    opening tag [<TargetFramework] (or [<TargetFrameworks]), any code units
    but [>], then [>], a group of one or more code units other than [<], and
    the closing tag. *)
Definition re_targetFramework : regex :=
  Str (lit "<TargetFramework") >> Star (notChar 62) >> Chr 62
  >> Grp 1 (Plus (notChar 60)) >> Str (lit "</TargetFramework>").
Definition re_targetFrameworks : regex :=
  Str (lit "<TargetFrameworks") >> Star (notChar 62) >> Chr 62
  >> Grp 1 (Plus (notChar 60)) >> Str (lit "</TargetFrameworks>").

(** [type] and [isTestProject] after the chain of tests on the content. *)
Definition detectType (projectContent : jsstring) : ProjectType * bool :=
  if includes projectContent (lit "Microsoft.NET.Test.Sdk")
     || includes projectContent (lit "xunit")
     || includes projectContent (lit "nunit")
     || includes projectContent (lit "MSTest")
  then (TestProject, true)
  else if includes projectContent (lit "Microsoft.AspNetCore") then (Web, false)
  else if includes projectContent (lit "<OutputType>Exe</OutputType>")
  then (Console, false)
  else (Library, false).

(** [a[0]] of the array a [split] returns, which is never empty. *)
Definition firstOf (a : list jsstring) : jsstring :=
  match a with
  | x :: _ => x
  | [] => []
  end.

Definition detectFramework (projectContent : jsstring) : jsstring :=
  let tfMatch :=
    match regex_match true re_targetFramework projectContent with
    | Some m => Some m
    | None => regex_match true re_targetFrameworks projectContent
    end in
  match tfMatch with
  | Some m => firstOf (splitOn 59 (group 1 m))
  | None =>
      if includes projectContent (lit "net4")
         || includes projectContent (lit "netframework")
      then lit "net48"
      else if includes projectContent (lit "netstandard")
      then lit "netstandard2.1"
      else []
  end.

(** [getProjectInfo] on a project file of the given content; [baseName]
    stands for [path.basename(p, path.extname(p))] of Node's [path]. *)
Definition getProjectInfo (baseName : jsstring -> jsstring)
           (projectPath projectContent : jsstring) : DotNetProject :=
  mkProject projectPath (baseName projectPath)
            (fst (detectType projectContent))
            (detectFramework projectContent)
            (snd (detectType projectContent)).

End Project.

(** ** Project detection (class [ProjectDetector]) *)

Module Detector.

Import Project.

(** The fields [projects] and [currentProject]. *)
Record state : Type := mkState {
  projects : list DotNetProject;
  currentProject : option DotNetProject
}.

(** What [detectProjects] gets from outside: the [autoDetectProjects]
    setting, whether the workspace has folders, the files [findFiles] gave
    for the three patterns over the folders, and the file system
    ([readFile] is [None] where [readFileSync] throws). *)
Record Workspace : Type := mkWorkspace {
  autoDetect : bool;
  hasFolders : bool;
  projectFiles : list jsstring;
  existsSync : jsstring -> bool;
  readFile : jsstring -> option jsstring;
  baseName : jsstring -> jsstring
}.

(** The body of the loop over [projectFiles]. *)
Definition parseFile (w : Workspace) (acc : list DotNetProject) (file : jsstring)
  : list DotNetProject :=
  if endsWith file (lit ".sln") then acc
  else if negb (existsSync w file) then acc
  else match readFile w file with
       | Some content => acc ++ [getProjectInfo (baseName w) file content]
       | None => acc
       end.

Definition detectProjects (w : Workspace) (st : state) : state :=
  if negb (autoDetect w) then st
  else if negb (hasFolders w) then st
  else
    match projectFiles w with
    | [] => mkState [] (currentProject st)
    | _ :: _ =>
        match fold_left (parseFile w) (projectFiles w) [] with
        | [] => mkState [] (currentProject st)
        | first :: others =>
            let nonTestProjects :=
              filter (fun p => negb (isTestProject p)) (first :: others) in
            mkState (first :: others)
                    (Some (match nonTestProjects with
                           | p :: _ => p
                           | [] => first
                           end))
        end
    end.

End Detector.

(** ** Launch profile arguments (class [LaunchProfileManager]) *)

Module LaunchProfile.




End LaunchProfile.

(** ** The notice of a failed build (classes [DotNetCli], [RunDebugManager]) *)

Module BuildNotice.

(** The error [executeCommand] throws when the command fails, from the
    [stdout], [stderr] and [message] of the error of [exec], each of which may
    be absent. *)
Record CommandError : Type := mkError {
  message : jsstring;
  stdout : jsstring;
  stderr : jsstring
}.

Definition orEmpty (a : option jsstring) : jsstring :=
  match a with Some s => s | None => [] end.

Definition commandFailure (stdout0 stderr0 message0 : option jsstring) : CommandError :=
  let out := orEmpty stdout0 in
  let err := orEmpty stderr0 in
  let errorMessage := orElse (orEmpty message0) (lit "Unknown error") in
  mkError (orElse out (orElse err errorMessage)) out err.

(** [error] of the result of [buildProject] when [executeCommand] throws [e]. *)
Definition buildError (e : CommandError) : jsstring :=
  orElse (trim (stdout e ++ 10%N :: stderr e))
         (orElse (message e) (lit "Build failed")).

(** [shortError] in [runProject] and [debugProject]. *)
Definition shortError (errorMsg : jsstring) : jsstring :=
  match filter TestRunner.nonBlank (split_nl errorMsg) with
  | [] => errorMsg
  | errorLines => joinWith (lit " | ") (firstn 3 errorLines)
  end.

(** What the notice shows between [Build failed: ] and the full stop. *)
Definition buildFailedNotice (stdout0 stderr0 message0 : option jsstring) : jsstring :=
  shortError (orElse (buildError (commandFailure stdout0 stderr0 message0))
                     (lit "Build failed")).

(** *** Vocabulary of the statements *)

(** The text holds something other than white space. *)
Definition visible (s : jsstring) : Prop :=
  exists c, In c s /\ isSpace c = false.

End BuildNotice.

(** * Properties *)

(** ** Strings *)

Section StringFacts.

Lemma str_eqb_eq (a b : jsstring) : str_eqb a b = true <-> a = b.
Proof.
  revert b; induction a as [|x a IH]; intros [|y b]; simpl; split;
    try congruence; try reflexivity.
  - intros H. apply andb_true_iff in H as [Hxy Hab].
    apply N.eqb_eq in Hxy. apply IH in Hab. congruence.
  - intros H. injection H as -> ->.
    rewrite N.eqb_refl. simpl. now apply IH.
Qed.

Lemma str_eqb_refl (a : jsstring) : str_eqb a a = true.
Proof. now apply str_eqb_eq. Qed.

Lemma str_eqb_neq (a b : jsstring) : str_eqb a b = false <-> a <> b.
Proof.
  split.
  - intros H E. apply str_eqb_eq in E. congruence.
  - intros H. destruct (str_eqb a b) eqn:E; [|reflexivity].
    apply str_eqb_eq in E. contradiction.
Qed.

End StringFacts.

(** ** The matcher against a declarative reading of the patterns *)

Module RegexFacts.

Section Sem.
Variable ic : bool.

Local Abbreviation Matches := (Regex.Matches ic).

(** A match consumes a prefix of the input and moves the index by its length. *)
Lemma Matches_consumes r x y :
  Matches r x y ->
  exists t, rest x = t ++ rest y /\ pos y = pos x + List.length t.
Proof.
  induction 1 as [x|c d s x Hr _|p d s x Hr _|r1 r2 x y z _ IH1 _ IH2
                 |r1 r2 x y _ IH|r1 r2 x y _ IH|r x
                 |r x y z _ IH1 _ _ IH2|n r x y _ IH|x _|x _];
    try (exists []; simpl; split; [reflexivity|lia]).
  - exists [d]. simpl. split; [assumption|lia].
  - exists [d]. simpl. split; [assumption|lia].
  - destruct IH1 as (t1 & E1 & P1), IH2 as (t2 & E2 & P2).
    exists (t1 ++ t2). rewrite length_app, <- app_assoc, <- E2.
    split; [assumption|lia].
  - exact IH.
  - exact IH.
  - destruct IH1 as (t1 & E1 & P1), IH2 as (t2 & E2 & P2).
    exists (t1 ++ t2). rewrite length_app, <- app_assoc, <- E2.
    split; [assumption|lia].
  - exact IH.
Qed.

Section Exec.
Variable A : Type.

(** Every answer of the matcher comes from a match of the pattern. *)
Lemma exec_sound r : forall x (k : mstate -> option A) a,
  exec ic r x k = Some a -> exists y, Matches r x y /\ k y = Some a.
Proof.
  induction r as [|c|p|r1 IH1 r2 IH2|r1 IH1 r2 IH2|r1 IH1|n r1 IH1| |];
    intros x k a H; simpl in H.
  - exists x. split; [constructor|assumption].
  - destruct (rest x) as [|d s] eqn:Hr; [discriminate|].
    destruct (N.eqb _ _) eqn:Hc; [|discriminate].
    apply N.eqb_eq in Hc. exists (advance x s). split; [|assumption].
    econstructor; eassumption.
  - destruct (rest x) as [|d s] eqn:Hr; [discriminate|].
    destruct (p d) eqn:Hp; [|discriminate].
    exists (advance x s). split; [|assumption]. econstructor; eassumption.
  - apply IH1 in H as (y & M1 & H). apply IH2 in H as (z & M2 & H).
    exists z. split; [econstructor; eassumption|assumption].
  - destruct (exec ic r1 x k) as [a'|] eqn:E1.
    + injection H as ->. apply IH1 in E1 as (y & M & E).
      exists y. split; [now apply M_AltL|assumption].
    + apply IH2 in H as (y & M & E).
      exists y. split; [now apply M_AltR|assumption].
  - revert H. generalize (List.length (rest x)) as fuel. intros fuel.
    revert x. induction fuel as [|fuel IHf]; intros x H.
    + exists x. split; [constructor|assumption].
    + match type of H with
      | match ?e with _ => _ end = _ => destruct e as [a'|] eqn:E1
      end.
      * injection H as ->. apply IH1 in E1 as (y & M & E).
        destruct (Nat.eqb (pos y) (pos x)) eqn:Hp; [discriminate|].
        apply Nat.eqb_neq in Hp. apply IHf in E as (z & Mz & E).
        exists z. split; [econstructor; eassumption|assumption].
      * exists x. split; [constructor|assumption].
  - apply IH1 in H as (y & M & H). exists (capture n x y).
    split; [now constructor|assumption].
  - destruct (Nat.eqb (pos x) 0) eqn:Hp; [|discriminate].
    apply Nat.eqb_eq in Hp. exists x. split; [now constructor|assumption].
  - destruct (rest x) eqn:Hr; [|discriminate].
    exists x. split; [now constructor|assumption].
Qed.

(** When the matcher fails, the continuation fails after every match. *)
Lemma exec_complete r : forall x (k : mstate -> option A),
  exec ic r x k = None -> forall y, Matches r x y -> k y = None.
Proof.
  induction r as [|c|p|r1 IH1 r2 IH2|r1 IH1 r2 IH2|r1 IH1|n r1 IH1| |];
    intros x k H y M; simpl in H.
  - inversion M; subst. assumption.
  - inversion M as [|c' d s x' Hr Hc| | | | | | | | |]; subst.
    rewrite Hr in H. rewrite Hc, N.eqb_refl in H. assumption.
  - inversion M as [| |p' d s x' Hr Hp| | | | | | | |]; subst.
    rewrite Hr, Hp in H. assumption.
  - inversion M as [| | |r1' r2' x' y' z' M1 M2| | | | | | |]; subst.
    eapply IH2; [|eassumption].
    exact (IH1 _ _ H _ M1).
  - destruct (exec ic r1 x k) eqn:E1; [discriminate|].
    inversion M; subst; [eapply IH1|eapply IH2]; eassumption.
  - assert (Hfuel : List.length (rest x) <= List.length (rest x)) by lia.
    revert H Hfuel. generalize (List.length (rest x)) at 1 3 as fuel.
    intros fuel. revert x y M.
    induction fuel as [|fuel IHf]; intros x y M H Hfuel.
    + inversion M as [| | | | | |r' x'|r' x' y' z' M1 Hp M2| | |]; subst.
      * assumption.
      * apply Matches_consumes in M1 as (t & E & P).
        rewrite E, length_app in Hfuel. lia.
    + match type of H with
      | match ?e with _ => _ end = _ => destruct e as [a'|] eqn:E1
      end; [discriminate|].
      inversion M as [| | | | | |r' x'|r' x' y' z' M1 Hp M2| | |]; subst.
      * assumption.
      * pose proof (IH1 _ _ E1 _ M1) as E. simpl in E.
        apply Nat.eqb_neq in Hp. rewrite Hp in E.
        apply (IHf _ _ M2 E).
        apply Nat.eqb_neq in Hp.
        apply Matches_consumes in M1 as (t & Et & P).
        rewrite Et, length_app in Hfuel. lia.
  - inversion M; subst. exact (IH1 _ _ H _ ltac:(eassumption)).
  - inversion M as [| | | | | | | | |x' Hp|]; subst.
    rewrite Hp in H. assumption.
  - inversion M as [| | | | | | | | | |x' Hr]; subst.
    rewrite Hr in H. assumption.
Qed.

End Exec.

(** [s.match(r)] answers with a match of [r] somewhere in [s] ... *)
Lemma search_sound r : forall s i y,
  search_from ic r i s = Some y ->
  exists pre suf, s = pre ++ suf /\
                  Matches r (MState (i + List.length pre) suf []) y.
Proof.
  induction s as [|c s IH]; intros i y H; simpl in H.
  - destruct (exec _ _ _ _) as [y'|] eqn:E; [|discriminate].
    injection H as ->. apply exec_sound in E as (z & M & E).
    injection E as ->. exists [], []. simpl.
    rewrite Nat.add_0_r. split; [reflexivity|assumption].
  - destruct (exec _ _ _ _) as [y'|] eqn:E.
    + injection H as ->. apply exec_sound in E as (z & M & E).
      injection E as ->. exists [], (c :: s). simpl.
      rewrite Nat.add_0_r. split; [reflexivity|assumption].
    + apply IH in H as (pre & suf & -> & M).
      exists (c :: pre), suf. simpl. split; [reflexivity|].
      now replace (i + S (List.length pre)) with (S i + List.length pre) by lia.
Qed.

(** ... and with [null] only when [r] matches nowhere in [s]. *)
Lemma search_complete r : forall s i,
  search_from ic r i s = None ->
  forall pre suf y, s = pre ++ suf ->
                    ~ Matches r (MState (i + List.length pre) suf []) y.
Proof.
  induction s as [|c s IH]; intros i H pre suf y E M; simpl in H.
  - destruct (exec _ _ _ _) as [y'|] eqn:E1; [discriminate|].
    symmetry in E. apply app_eq_nil in E as [-> ->]. simpl in M.
    rewrite Nat.add_0_r in M.
    pose proof (@exec_complete _ _ _ _ E1 _ M). discriminate.
  - destruct (exec _ _ _ _) as [y'|] eqn:E1; [discriminate|].
    destruct pre as [|d pre]; simpl in E.
    + subst suf. simpl in M. rewrite Nat.add_0_r in M.
      pose proof (@exec_complete _ _ _ _ E1 _ M). discriminate.
    + injection E as <- ->.
      eapply (IH (S i) H pre suf y eq_refl).
      simpl in M.
      now replace (S i + List.length pre) with (i + S (List.length pre)) by lia.
Qed.

(** *** Inversion *)

Lemma Matches_Eps_inv x y : Matches Eps x y -> y = x.
Proof. now inversion 1. Qed.

Lemma Matches_Seq_inv r1 r2 x z :
  Matches (Seq r1 r2) x z -> exists y, Matches r1 x y /\ Matches r2 y z.
Proof. inversion 1; subst. eauto. Qed.

Lemma Matches_Alt_inv r1 r2 x y :
  Matches (Alt r1 r2) x y -> Matches r1 x y \/ Matches r2 x y.
Proof. inversion 1; subst; auto. Qed.

Lemma Matches_Grp_inv n r x z :
  Matches (Grp n r) x z -> exists y, Matches r x y /\ z = capture n x y.
Proof. inversion 1; subst. eauto. Qed.

Lemma Matches_Bol_start x y : Matches Bol x y -> pos x = 0 /\ y = x.
Proof. inversion 1; subst. auto. Qed.

Lemma Matches_Eol_end x y : Matches Eol x y -> rest x = [] /\ y = x.
Proof. inversion 1; subst. auto. Qed.

(** *** What single patterns consume *)

Lemma Matches_Cls_inv p x y :
  Matches (Cls p) x y ->
  exists d s, p d = true /\ rest x = d :: s /\ y = advance x s.
Proof.
  intros M. inversion M as [| |p' d s x' Hr Hp| | | | | | | |]; subst.
  exists d, s. auto.
Qed.

Lemma Matches_Star_Cls_inv p x y :
  Matches (Star (Cls p)) x y ->
  exists t s, Forall (fun d => p d = true) t /\ rest x = t ++ s /\
              y = MState (pos x + List.length t) s (caps x).
Proof.
  intros M. remember (Star (Cls p)) as r eqn:Er.
  induction M as [| | | | | |r x|r x y z M1 _ Hp M2 IH2| | |]; try discriminate.
  - exists [], (rest x). simpl. rewrite Nat.add_0_r. split; [constructor|].
    split; [reflexivity|]. now destruct x.
  - injection Er as ->. specialize (IH2 eq_refl).
    apply Matches_Cls_inv in M1 as (d & s & Hd & Hr & ->).
    destruct IH2 as (t & s' & Ht & Hrest & ->). simpl in *. subst s.
    exists (d :: t), s'. split; [now constructor|]. simpl.
    split; [assumption|]. f_equal. lia.
Qed.

Lemma Matches_Star_Cls_intro p t : forall i s c,
  Forall (fun d => p d = true) t ->
  Matches (Star (Cls p)) (MState i (t ++ s) c) (MState (i + List.length t) s c).
Proof.
  induction t as [|d t IH]; intros i s c Ht; simpl.
  - rewrite Nat.add_0_r. constructor.
  - inversion Ht as [|d' t' Hd Ht']; subst.
    apply M_StarS with (y := MState (S i) (t ++ s) c).
    + apply (@M_Cls ic p d (t ++ s) (MState i (d :: t ++ s) c)); auto.
    + simpl. lia.
    + replace (i + S (List.length t)) with (S i + List.length t) by lia.
      now apply IH.
Qed.

Lemma Matches_Plus_Cls_inv p x y :
  Matches (Plus (Cls p)) x y ->
  exists t s, t <> [] /\ Forall (fun d => p d = true) t /\ rest x = t ++ s /\
              y = MState (pos x + List.length t) s (caps x).
Proof.
  unfold Plus. intros M.
  inversion M as [| | |r1 r2 x' y' z' M1 M2| | | | | | |]; subst.
  apply Matches_Cls_inv in M1 as (d & s & Hd & Hr & ->).
  apply Matches_Star_Cls_inv in M2 as (t & s' & Ht & Hrest & ->).
  simpl in *. subst s.
  exists (d :: t), s'. split; [discriminate|]. split; [now constructor|].
  simpl. split; [assumption|]. f_equal. lia.
Qed.

Lemma Matches_Plus_Cls_intro p t i s c :
  t <> [] -> Forall (fun d => p d = true) t ->
  Matches (Plus (Cls p)) (MState i (t ++ s) c) (MState (i + List.length t) s c).
Proof.
  destruct t as [|d t]; [congruence|]. intros _ Ht.
  inversion Ht as [|d' t' Hd Ht']; subst. unfold Plus. simpl.
  apply M_Seq with (y := MState (S i) (t ++ s) c).
  - apply (@M_Cls ic p d (t ++ s) (MState i (d :: t ++ s) c)); auto.
  - replace (i + S (List.length t)) with (S i + List.length t) by lia.
    now apply Matches_Star_Cls_intro.
Qed.

(** A pattern text matches a text with the same canonical code units. *)
Lemma Matches_Chr_canon c x y :
  Matches (Chr c) x y ->
  exists d s, rest x = d :: s /\ canonicalize ic d = canonicalize ic c /\
              y = advance x s.
Proof.
  intros M. inversion M as [|c' d s x' Hr Hc| | | | | | | | |]; subst.
  exists d, s. auto.
Qed.

Lemma Matches_Str_canon t : forall x y,
  Matches (Str t) x y ->
  exists t' s, rest x = t' ++ s /\
               List.map (canonicalize ic) t' = List.map (canonicalize ic) t /\
               y = MState (pos x + List.length t) s (caps x).
Proof.
  induction t as [|c t IH]; intros x y M; simpl in M.
  - apply Matches_Eps_inv in M as ->. exists [], (rest x). simpl.
    rewrite Nat.add_0_r. repeat split. now destruct x.
  - apply Matches_Seq_inv in M as (x1 & M1 & M2).
    apply Matches_Chr_canon in M1 as (d & s & Hr & Hc & ->).
    apply IH in M2 as (t' & s' & Hrest & Hmap & ->). simpl in *. subst s.
    exists (d :: t'), s'. simpl. rewrite Hc, Hmap.
    repeat split; [assumption|]. f_equal. lia.
Qed.

End Sem.

(** Without the i flag a pattern character matches itself alone. *)
Lemma Matches_Chr_inv c x y :
  Matches false (Chr c) x y ->
  exists s, rest x = c :: s /\ y = advance x s.
Proof.
  intros M. inversion M as [|c' d s x' Hr Hc| | | | | | | | |]; subst.
  unfold canonicalize in Hc. simpl in *. subst. eauto.
Qed.

Lemma Matches_Chr_intro c i s cs :
  Matches false (Chr c) (MState i (c :: s) cs) (MState (S i) s cs).
Proof. now apply (@M_Chr false c c s (MState i (c :: s) cs)). Qed.

Lemma Matches_Str_inv t : forall x y,
  Matches false (Str t) x y ->
  exists s, rest x = t ++ s /\ y = MState (pos x + List.length t) s (caps x).
Proof.
  induction t as [|c t IH]; intros x y M; simpl in M.
  - inversion M; subst. exists (rest y). simpl. rewrite Nat.add_0_r.
    now destruct y.
  - inversion M as [| | |r1 r2 x' y' z' M1 M2| | | | | | |]; subst.
    apply Matches_Chr_inv in M1 as (s & Hr & ->).
    apply IH in M2 as (s' & Hrest & ->). simpl in *. subst s.
    exists s'. split; [assumption|]. f_equal. lia.
Qed.

Lemma Matches_Str_intro t : forall i s cs,
  Matches false (Str t) (MState i (t ++ s) cs) (MState (i + List.length t) s cs).
Proof.
  induction t as [|c t IH]; intros i s cs; simpl.
  - rewrite Nat.add_0_r. constructor.
  - apply M_Seq with (y := MState (S i) (t ++ s) cs).
    + apply Matches_Chr_intro.
    + replace (i + S (List.length t)) with (S i + List.length t) by lia.
      apply IH.
Qed.

End RegexFacts.

(** ** The test-output parser *)

Module TestRunnerFacts.

Import TestRunner.

Lemma isTerminal_false l :
  isTerminal l = false ->
  includes l (lit "Passed!") || test false re_passGlyph l = false /\
  includes l (lit "Failed!") || test false re_failGlyph l = false /\
  includes l (lit "Skipped") = false.
Proof.
  unfold isTerminal, passLine, failLine, skipLine. intros H.
  apply orb_false_iff in H as [H H3]. apply orb_false_iff in H as [H1 H2].
  auto.
Qed.

(** A terminal line seals with the outcome of the first test it passes. *)
Lemma step_terminal lines st i :
  isTerminal (lineAt lines i) = true ->
  exists o, step lines st i = seal o st.
Proof.
  unfold isTerminal, passLine, failLine, skipLine, step. intros H.
  destruct (includes _ (lit "Passed!") || test false re_passGlyph _);
    [now exists Passed|].
  destruct (includes _ (lit "Failed!") || test false re_failGlyph _);
    [now exists Failed|].
  destruct (includes _ (lit "Skipped")); [now exists Skipped|discriminate].
Qed.

(** Any other line leaves [results] as it is. *)
Lemma step_nonterminal_results lines st i :
  isTerminal (lineAt lines i) = false ->
  results (step lines st i) = results st.
Proof.
  intros H. apply isTerminal_false in H as (H1 & H2 & H3).
  unfold step. cbv zeta. rewrite H1, H2, H3.
  repeat match goal with
         | |- context [match ?e with _ => _ end] => destruct e; simpl; auto
         end.
Qed.

Lemma run_S lines n : run lines (S n) = step lines (run lines n) n.
Proof. unfold run. now rewrite seq_S, fold_left_app. Qed.

Lemma run_results_stable lines n m :
  n <= m ->
  (forall j, n <= j -> j < m -> isTerminal (lineAt lines j) = false) ->
  results (run lines m) = results (run lines n).
Proof.
  induction 1 as [|m Hle IH]; intros Hnt; [reflexivity|].
  rewrite run_S, step_nonterminal_results by (apply Hnt; lia).
  apply IH. intros j Hj Hjm. apply Hnt; lia.
Qed.

Lemma durationBranch_outcome m1 t : outcome (durationBranch m1 t) = outcome t.
Proof.
  unfold durationBranch. now destruct (regex_match false re_durationValue _).
Qed.

Lemma step_sealedOnly lines st i : sealedOnly st -> sealedOnly (step lines st i).
Proof.
  intros Hst.
  assert (Hseal : forall o, sealedOnly (seal o st)).
  { intros o. unfold seal. destruct (currentTest st) as [t|] eqn:Et.
    - split; simpl; [|discriminate].
      apply Forall_app. split; [apply Hst|]. constructor; [|constructor].
      simpl. discriminate.
    - exact Hst. }
  unfold step. cbv zeta.
  repeat match goal with
         | |- sealedOnly (seal _ _) => apply Hseal
         | |- sealedOnly st => exact Hst
         | |- sealedOnly (mkState _ _) =>
             split; simpl; [apply Hst|];
             let t := fresh "t" in let E := fresh "E" in
             intros t E; injection E as <-; simpl;
             rewrite ?durationBranch_outcome; auto; now apply Hst
         | |- context [match ?e with _ => _ end] => destruct e eqn:?
         | |- context [if ?e then _ else _] => destruct e eqn:?
         end.
Qed.

Lemma run_sealedOnly lines n : sealedOnly (run lines n).
Proof.
  induction n as [|n IH].
  - split; simpl; [constructor|discriminate].
  - rewrite run_S. now apply step_sealedOnly.
Qed.

Lemma skipn_lineAt lines : forall j,
  j < List.length lines -> skipn j lines = lineAt lines j :: skipn (S j) lines.
Proof.
  unfold lineAt. induction lines as [|l lines IH]; intros [|j] Hj; simpl in *;
    try lia; [reflexivity|]. apply IH. lia.
Qed.

(** With fuel for the rest of the array the inner loop returns what it has,
    followed by the leading non-blank lines among those below index [i + 20]. *)
Lemma stackLoop_spec lines i : forall fuel j acc,
  List.length lines - j <= fuel ->
  stackLoop lines i j fuel acc =
  acc ++ takeWhile nonBlank (firstn (i + 20 - j) (skipn j lines)).
Proof.
  induction fuel as [|fuel IH]; intros j acc Hf; simpl.
  - rewrite skipn_all2 by lia. rewrite firstn_nil. simpl. now rewrite app_nil_r.
  - destruct (Nat.ltb j (List.length lines)) eqn:Hlen; simpl.
    + apply Nat.ltb_lt in Hlen.
      destruct (Nat.ltb j (i + 20)) eqn:Hwin.
      * apply Nat.ltb_lt in Hwin.
        rewrite (skipn_lineAt lines Hlen).
        replace (i + 20 - j) with (S (i + 20 - S j)) by lia.
        simpl. unfold nonBlank at 1.
        destruct (trim (lineAt lines j)) eqn:Ht.
        -- now rewrite app_nil_r.
        -- rewrite IH by lia. now rewrite <- app_assoc.
      * apply Nat.ltb_ge in Hwin.
        replace (i + 20 - j) with 0 by lia. simpl. now rewrite app_nil_r.
    + apply Nat.ltb_ge in Hlen.
      rewrite skipn_all2 by lia. rewrite firstn_nil. simpl. now rewrite app_nil_r.
Qed.

Lemma stackTraceLines_spec lines i :
  stackTraceLines lines i = takeWhile nonBlank (firstn 19 (skipn (S i) lines)).
Proof.
  unfold stackTraceLines. rewrite stackLoop_spec by lia. simpl.
  replace (i + 20 - (i + 1)) with 19 by lia.
  now replace (i + 1) with (S i) by lia.
Qed.

Lemma takeWhile_length p ls : List.length (takeWhile p ls) <= List.length ls.
Proof.
  induction ls as [|l ls IH]; simpl; [lia|]. destruct (p l); simpl; lia.
Qed.

Lemma firstn_consumed (t s : jsstring) i :
  firstn (i + List.length t - i) (t ++ s) = t.
Proof.
  replace (i + List.length t - i) with (List.length t + 0) by lia.
  rewrite firstn_app_2. simpl. apply app_nil_r.
Qed.

Import RegexFacts.

(** A match of the duration pattern spans a well-formed number, white space
    and a unit, and captures the number and the unit. *)
Lemma durationValue_inv i suf y :
  Matches false re_durationValue (MState i suf []) y ->
  exists num ws u post,
    suf = num ++ ws ++ u ++ post /\
    wellFormedNumber num /\ spaces ws /\ isUnit u /\
    group 1 y = num /\ group 2 y = u.
Proof.
  unfold re_durationValue. intros M.
  apply Matches_Seq_inv in M as (y1 & M1 & M).
  apply Matches_Grp_inv in M1 as (y0 & M1 & ->).
  apply Matches_Seq_inv in M1 as (xa & Mp & Mo).
  apply Matches_Plus_Cls_inv in Mp as (ip & s1 & Hip & Dip & Hs1 & ->).
  simpl in Hs1. subst suf.
  apply Matches_Seq_inv in M as (yc & Ms & M).
  apply Matches_Grp_inv in M as (yd & Mu & ->).
  assert (Hnum : exists num s2,
             wellFormedNumber num /\ ip ++ s1 = num ++ s2 /\
             y0 = MState (i + List.length num) s2 []).
  { apply Matches_Alt_inv in Mo as [Mf|Me].
    - apply Matches_Seq_inv in Mf as (xb & Mc & Mf).
      apply Matches_Chr_inv in Mc as (s2 & Hs2 & ->). simpl in Hs2. subst s1.
      apply Matches_Plus_Cls_inv in Mf as (fp & s3 & Hfp & Dfp & Hs3 & ->).
      simpl in *. subst s2.
      exists (ip ++ 46%N :: fp), s3. split; [|split].
      + exists ip. split; [now split|]. right. exists fp. split; [now split|reflexivity].
      + now rewrite <- app_assoc.
      + f_equal. rewrite length_app. simpl. lia.
    - apply Matches_Eps_inv in Me as ->. exists ip, s1. split; [|split].
      + exists ip. split; [now split|]. now left.
      + reflexivity.
      + reflexivity. }
  destruct Hnum as (num & s2 & Wnum & Hsplit & ->). simpl in *.
  rewrite Hsplit in *.
  apply Matches_Star_Cls_inv in Ms as (ws & s4 & Hws & Hs4 & ->).
  simpl in *. subst s2.
  assert (Hu : exists u s5, isUnit u /\ s4 = u ++ s5 /\
                 yd = MState (i + List.length num + List.length ws + List.length u)
                             s5 [(1%nat, firstn (i + List.length num - i)
                                           (num ++ ws ++ s4))]).
  { apply Matches_Alt_inv in Mu as [Mu|Mu];
      [apply (@Matches_Str_inv (lit "ms")) in Mu as (s5 & Hs5 & ->)
      |apply (@Matches_Str_inv (lit "s")) in Mu as (s5 & Hs5 & ->)]; simpl in *.
    - exists (lit "ms"), s5. split; [now left|]. split; [assumption|reflexivity].
    - exists (lit "s"), s5. split; [now right|]. split; [assumption|reflexivity]. }
  destruct Hu as (u & s5 & Wu & -> & ->).
  exists num, ws, u, s5. repeat split; try assumption.
  - unfold group, capture. simpl. apply firstn_consumed.
  - unfold group, capture. simpl.
    replace (i + List.length num + List.length ws + List.length u
             - (i + List.length num + List.length ws))
      with (0 + List.length u - 0) by lia.
    apply firstn_consumed.
Qed.

(** Such a text is matched where it stands. *)
Lemma durationValue_intro i num ws u post :
  wellFormedNumber num -> spaces ws -> isUnit u ->
  exists y, Matches false re_durationValue (MState i (num ++ ws ++ u ++ post) []) y.
Proof.
  intros (ip & [Hip Dip] & Hnum) Hws Hu.
  set (x := MState i (num ++ ws ++ u ++ post) []).
  assert (Mn : Matches false (Grp 1 (Plus digit >> Opt (Chr 46 >> Plus digit))) x
                 (capture 1 x (MState (i + List.length num) (ws ++ u ++ post) []))).
  { apply M_Grp. unfold x.
    destruct Hnum as [->|(fp & [Hfp Dfp] & ->)].
    - apply M_Seq with (y := MState (i + List.length ip) (ws ++ u ++ post) []).
      + now apply Matches_Plus_Cls_intro.
      + apply M_AltR. constructor.
    - rewrite <- app_assoc. simpl.
      apply M_Seq with (y := MState (i + List.length ip)
                                    (46%N :: fp ++ ws ++ u ++ post) []).
      + now apply Matches_Plus_Cls_intro.
      + apply M_AltL.
        apply M_Seq with (y := MState (S (i + List.length ip))
                                      (fp ++ ws ++ u ++ post) []).
        * apply Matches_Chr_intro.
        * rewrite length_app. simpl.
          replace (i + (List.length ip + S (List.length fp)))
            with (S (i + List.length ip) + List.length fp) by lia.
          now apply Matches_Plus_Cls_intro. }
  unfold capture in Mn. simpl in Mn.
  unfold re_durationValue.
  destruct Hu as [Hu|Hu]; rewrite Hu in *; eexists;
    (eapply M_Seq; [exact Mn|]);
    (eapply M_Seq; [now apply Matches_Star_Cls_intro|]);
    apply M_Grp; [apply M_AltL|apply M_AltR]; apply Matches_Str_intro.
Qed.

(** [durationMatch] is [null] exactly on a text that holds no well-formed
    number followed by a unit. *)
Lemma durationValue_none text :
  regex_match false re_durationValue text = None <-> ~ holdsDuration text.
Proof.
  unfold regex_match. split.
  - intros H (pre & num & ws & u & post & -> & Wn & Ws & Wu).
    destruct (@durationValue_intro (0 + List.length pre) num ws u post Wn Ws Wu)
      as [y My].
    exact (@search_complete false _ _ 0 H pre _ y eq_refl My).
  - intros H. destruct (search_from false re_durationValue 0 text) as [y|] eqn:E;
      [|reflexivity].
    exfalso. apply H. apply search_sound in E as (pre & suf & -> & M).
    apply durationValue_inv in M
      as (num & ws & u & post & -> & Wn & Ws & Wu & _).
    now exists pre, num, ws, u, post.
Qed.

Lemma durationValue_some text dm :
  regex_match false re_durationValue text = Some dm ->
  wellFormedNumber (group 1 dm) /\ isUnit (group 2 dm).
Proof.
  unfold regex_match. intros E.
  apply search_sound in E as (pre & suf & -> & M).
  apply durationValue_inv in M
    as (num & ws & u & post & -> & Wn & Ws & Wu & -> & ->).
  now split.
Qed.

(** *** The marker patterns exclude one another *)

Lemma letter_not_space d :
  (N.leb 97 d && N.leb d 122)%N = true -> isSpace d = false.
Proof.
  intros H. apply andb_true_iff in H as [H1 H2].
  apply N.leb_le in H1, H2.
  unfold isSpace, isWhiteSpace, isLineTerminator.
  repeat match goal with
         | |- context [N.eqb d ?k] => destruct (N.eqb_spec d k); [lia|]
         | |- context [N.leb ?k d] => destruct (N.leb_spec k d); [|lia]
         | |- context [N.leb d ?k] => destruct (N.leb_spec d k); [lia|]
         end.
  reflexivity.
Qed.

(** What matches a pattern character that is no white space is none either. *)
Lemma canonical_not_space d c :
  canonicalize true d = canonicalize true c ->
  isSpace c = false -> isSpace d = false.
Proof.
  unfold canonicalize. simpl. intros H Hc.
  destruct (N.leb 97 d && N.leb d 122)%N eqn:Hd; [now apply letter_not_space|].
  destruct (N.leb 97 c && N.leb c 122)%N eqn:Hl; [|now subst].
  (* [d] is the capital of the letter [c] *)
  apply andb_true_iff in Hl as [H1 H2]. apply N.leb_le in H1, H2.
  assert (Hr : (65 <= d /\ d <= 90)%N) by lia. clear - Hr.
  unfold isSpace, isWhiteSpace, isLineTerminator.
  repeat match goal with
         | |- context [N.eqb d ?k] => destruct (N.eqb_spec d k); [lia|]
         | |- context [N.leb ?k d] => destruct (N.leb_spec k d); [lia|]
         end.
  reflexivity.
Qed.

Lemma dropWhile_spaces ws d s :
  spaces ws -> isSpace d = false -> dropWhile isSpace (ws ++ d :: s) = d :: s.
Proof.
  intros Hws Hd. induction Hws as [|w ws Hw _ IH]; simpl.
  - now rewrite Hd.
  - now rewrite Hw.
Qed.

(** A line that matches [^\s*L...] under the i flag reads, after its leading
    white space, as [L] up to the case of letters. *)
Lemma marker_label c L r line m :
  isSpace c = false ->
  regex_match true (Bol >> Star space >> Str (c :: L) >> r) line = Some m ->
  exists t s, dropWhile isSpace line = t ++ s /\
              List.map (canonicalize true) t = List.map (canonicalize true) (c :: L).
Proof.
  unfold regex_match. intros Hc E.
  apply search_sound in E as (pre & suf & -> & M).
  apply Matches_Seq_inv in M as (x0 & Mb & M).
  apply Matches_Bol_start in Mb as [Hp ->]. simpl in Hp.
  destruct pre; [|discriminate]. simpl in *.
  apply Matches_Seq_inv in M as (x1 & Ms & M).
  apply Matches_Star_Cls_inv in Ms as (ws & s1 & Hws & Hs1 & ->). simpl in Hs1.
  apply Matches_Seq_inv in M as (x2 & Ml & _).
  apply (@Matches_Str_canon true (c :: L)) in Ml as (t & s2 & Ht & Hmap & _).
  simpl in Ht.
  subst suf s1. exists t, s2. split; [|assumption].
  destruct t as [|d t]; [discriminate|]. simpl in Hmap.
  injection Hmap as Hd _. simpl.
  apply dropWhile_spaces; [assumption|].
  now apply (@canonical_not_space d c Hd).
Qed.

(** Two labels that differ at some place, case aside, are not both matched. *)
Lemma labels_exclusive k c1 L1 r1 c2 L2 r2 line m1 :
  isSpace c1 = false -> isSpace c2 = false ->
  k < List.length (c1 :: L1) -> k < List.length (c2 :: L2) ->
  nth k (List.map (canonicalize true) (c1 :: L1)) 0%N <>
  nth k (List.map (canonicalize true) (c2 :: L2)) 0%N ->
  regex_match true (Bol >> Star space >> Str (c1 :: L1) >> r1) line = Some m1 ->
  regex_match true (Bol >> Star space >> Str (c2 :: L2) >> r2) line = None.
Proof.
  intros Hc1 Hc2 Hk1 Hk2 Hne E1.
  destruct (regex_match true (Bol >> Star space >> Str (c2 :: L2) >> r2) line)
    as [m2|] eqn:E2; [|reflexivity].
  exfalso. apply Hne.
  apply (@marker_label _ _ _ _ _ Hc1) in E1 as (t1 & s1 & Hl1 & Hm1).
  apply (@marker_label _ _ _ _ _ Hc2) in E2 as (t2 & s2 & Hl2 & Hm2).
  rewrite <- Hm1, <- Hm2.
  assert (Hn1 : k < List.length t1)
    by (rewrite <- (length_map (canonicalize true)), Hm1, length_map; exact Hk1).
  assert (Hn2 : k < List.length t2)
    by (rewrite <- (length_map (canonicalize true)), Hm2, length_map; exact Hk2).
  change 0%N with (canonicalize true 0%N). rewrite !map_nth. f_equal.
  rewrite <- (app_nth1 t1 s1 0%N Hn1), <- (app_nth1 t2 s2 0%N Hn2).
  now rewrite <- Hl1, <- Hl2.
Qed.

(** A Duration line is no name line, and a Test Method line no Test Name line. *)
Lemma duration_not_name line m :
  regex_match true re_duration line = Some m ->
  regex_match true re_testName line = None /\
  regex_match true re_testMethod line = None.
Proof.
  intros E. pose (tl := Star space >> Grp 1 (Plus dot) >> Eol). split.
  - apply (@labels_exclusive 0 68%N (lit "uration:") tl 84%N (lit "est Name:") tl
                             line m);
      try reflexivity; try (simpl; lia); [vm_compute; discriminate|exact E].
  - apply (@labels_exclusive 0 68%N (lit "uration:") tl 84%N (lit "est Method:") tl
                             line m);
      try reflexivity; try (simpl; lia); [vm_compute; discriminate|exact E].
Qed.

Lemma method_not_name line m :
  regex_match true re_testMethod line = Some m ->
  regex_match true re_testName line = None.
Proof.
  intros E. pose (tl := Star space >> Grp 1 (Plus dot) >> Eol).
  apply (@labels_exclusive 5 84%N (lit "est Method:") tl 84%N (lit "est Name:") tl
                           line m);
    try reflexivity; try (simpl; lia); [vm_compute; discriminate|exact E].
Qed.

(** C2: the stack-trace marker collects the non-blank lines that follow it up
    to the first blank one, and at most 19 of them, not 20: the loop runs
    from [i + 1] while [j < i + 20].  On a marker followed by 20 frames the
    record keeps 19 and stays open until the terminal marker seals it. *)
Theorem stack_trace_capture_takes_19_lines :
  (forall lines i,
      stackTraceLines lines i = takeWhile nonBlank (firstn 19 (skipn (S i) lines)) /\
      List.length (stackTraceLines lines i) <= 19) /\
  let frame := lit "   at Calc.Divide()" in
  let lines := [lit "Test Name: T"; lit "Stack Trace:"]
               ++ repeat frame 20 ++ [lit "Failed!"] in
  currentTest (run lines 2) =
    Some (setStackTrace (newTest (lit "T")) (join_nl (repeat frame 19))) /\
  parseTestResults (join_nl lines) =
    [mkTestResult (Some (lit "T")) (Some Failed) None None
                  (Some (join_nl (repeat frame 19)))].
Proof.
  split.
  - intros lines i. split; [apply stackTraceLines_spec|].
    rewrite stackTraceLines_spec.
    etransitivity; [apply takeWhile_length|].
    rewrite length_firstn. lia.
  - vm_compute. split; reflexivity.
Qed.

(** C3, as the code has it: on a line that passes none of the terminal
    tests, a Test Name line puts a fresh record with that name alone in the
    slot, whatever the slot held, and a Test Method line sets the name of an
    open record whose name is unset or empty and otherwise changes nothing;
    on a line that passes a terminal test, a name line of either kind among
    them, no name is set and no record opened: the open record is sealed
    under the name it has, and nothing happens when the slot is empty. *)
Theorem name_marker_opens_fresh_record lines st i :
  (isTerminal (lineAt lines i) = false ->
   (forall m, regex_match true re_testName (lineAt lines i) = Some m ->
      step lines st i =
      mkState (results st)
              (Some (mkTestResult (Some (trim (group 1 m))) None None None None))) /\
   (forall m, regex_match true re_testMethod (lineAt lines i) = Some m ->
      (currentTest st = None -> step lines st i = st) /\
      (forall t, currentTest st = Some t -> nameUnset t = false ->
         step lines st i = st) /\
      (forall t, currentTest st = Some t -> nameUnset t = true ->
         step lines st i =
         mkState (results st)
                 (Some (mkTestResult (Some (trim (group 1 m))) (outcome t)
                                     (duration t) (errorMessage t)
                                     (stackTrace t)))))) /\
  (isTerminal (lineAt lines i) = true ->
   (currentTest st = None -> step lines st i = st) /\
   (forall t, currentTest st = Some t ->
      exists o,
        step lines st i =
        mkState (results st
                 ++ [mkTestResult (name t) (Some o) (duration t)
                                  (errorMessage t) (stackTrace t)])
                None)).
Proof.
  split.
  - intros H. apply isTerminal_false in H as (H1 & H2 & H3).
    unfold step. cbv zeta. rewrite H1, H2, H3. split.
    + intros m ->. reflexivity.
    + intros m Hm. rewrite (method_not_name _ Hm), Hm. repeat split.
      * intros ->. reflexivity.
      * intros t -> ->. reflexivity.
      * intros t -> ->. reflexivity.
  - intros H. destruct (@step_terminal lines st i H) as [o Ho]. rewrite Ho.
    unfold seal. split.
    + intros ->. reflexivity.
    + intros t ->. now exists o.
Qed.

Lemma name_marker_opens_fresh_record_witness :
  let lines := [lit "Test Name: A"; lit "Duration: 5ms"; lit "Test Name: B";
                lit "Test Method: C"] in
  let sealing := [lit "Test Name:  "; lit "Test Method: Returns_Skipped_Items"] in
  step lines (run lines 2) 2 =
    mkState [] (Some (mkTestResult (Some (lit "B")) None None None None)) /\
  step lines (run lines 3) 3 = run lines 3 /\
  test true re_testMethod (lineAt sealing 1) = true /\
  currentTest (run sealing 1) = Some (mkTestResult (Some []) None None None None) /\
  (exists o, step sealing (run sealing 1) 1 =
             mkState [mkTestResult (Some []) (Some o) None None None] None) /\
  run sealing 2 = mkState [mkTestResult (Some []) (Some Skipped) None None None] None.
Proof.
  intros lines sealing. split; [|split; [|split; [|split; [|split]]]].
  - apply (proj1 (proj1 (@name_marker_opens_fresh_record lines (run lines 2) 2)
                        eq_refl)
                 (MState 12 [] [(1, lit "B")])).
    vm_compute. reflexivity.
  - apply (proj1 (proj2 (proj2
             (proj1 (@name_marker_opens_fresh_record lines (run lines 3) 3) eq_refl)
             (MState 14 [] [(1, lit "C")]) eq_refl))
           (newTest (lit "B"))).
    + vm_compute. reflexivity.
    + reflexivity.
  - vm_compute. reflexivity.
  - vm_compute. reflexivity.
  - apply (proj2 (proj2 (@name_marker_opens_fresh_record sealing (run sealing 1) 1)
                        eq_refl)
                 (newTest [])).
    vm_compute. reflexivity.
  - vm_compute. reflexivity.
Defined.

(** C3 as stated fails: the second Test Name line meets an open record named
    A and the slot then holds the name B, with the duration gone. *)
Lemma name_marker_overwrites_set_name :
  let lines := [lit "Test Name: A"; lit "Duration: 5ms"; lit "Test Name: B";
                lit "Passed!"] in
  currentTest (run lines 2) = Some (setDuration (newTest (lit "A")) 5) /\
  currentTest (run lines 3) = Some (newTest (lit "B")) /\
  parseTestResults (join_nl lines) = [setOutcome (newTest (lit "B")) Passed].
Proof. vm_compute. repeat split; reflexivity. Qed.

(** C7: whatever follows the last terminal marker adds nothing to the returned
    sequence, and the record left in the slot at the end of the input is not
    in it. *)
Theorem open_record_at_end_is_dropped output n :
  n <= List.length (split_nl output) ->
  (forall j, n <= j -> j < List.length (split_nl output) ->
             isTerminal (lineAt (split_nl output) j) = false) ->
  parseTestResults output = results (run (split_nl output) n) /\
  forall t, currentTest (run (split_nl output) (List.length (split_nl output))) = Some t ->
            ~ In t (parseTestResults output).
Proof.
  intros Hn Hnt. split.
  - unfold parseTestResults, parseLines. now apply run_results_stable.
  - intros t Ht Hin. unfold parseTestResults, parseLines in Hin.
    destruct (run_sealedOnly (split_nl output) (List.length (split_nl output)))
      as [Hr Hc].
    rewrite Forall_forall in Hr. apply Hr in Hin. apply Hc in Ht. contradiction.
Qed.

Lemma open_record_at_end_is_dropped_witness :
  parseTestResults (lit "Test Name: Addition_ReturnsSum") = [] /\
  ~ In (newTest (lit "Addition_ReturnsSum"))
       (parseTestResults (lit "Test Name: Addition_ReturnsSum")).
Proof.
  assert (H0 : 0 <= List.length (split_nl (lit "Test Name: Addition_ReturnsSum")))
    by (vm_compute; lia).
  destruct (@open_record_at_end_is_dropped
              (lit "Test Name: Addition_ReturnsSum") 0 H0) as [H1 H2].
  - intros [|j] _ Hj; [vm_compute; reflexivity|].
    vm_compute in Hj. lia.
  - split; [exact H1|]. apply H2. vm_compute. reflexivity.
Defined.

(** C8, as the code has it: a Duration line met with a record open, when it
    passes none of the terminal tests, stores in the record's duration field
    the value of the number the duration pattern captures, as it is for the
    unit ms and times 1000 for the unit s, the other fields staying as they
    were; the captured number is well formed, a text that holds a well-formed
    number followed by a unit is always matched, and one that holds none
    leaves the record as it was.  When the line passes a terminal test it
    stores no duration: the record is sealed with the duration it had. *)
Theorem duration_marker_sets_milliseconds lines st i m t :
  regex_match true re_duration (lineAt lines i) = Some m ->
  currentTest st = Some t ->
  (isTerminal (lineAt lines i) = false ->
   (forall dm,
       regex_match false re_durationValue (trim (group 1 m)) = Some dm ->
       wellFormedNumber (group 1 dm) /\
       (group 2 dm = lit "ms" /\
        step lines st i =
        mkState (results st)
                (Some (mkTestResult (name t) (outcome t)
                                    (Some (Num.parseFloat (group 1 dm)))
                                    (errorMessage t) (stackTrace t)))
        \/
        group 2 dm = lit "s" /\
        step lines st i =
        mkState (results st)
                (Some (mkTestResult (name t) (outcome t)
                                    (Some (PrimFloat.mul
                                             (Num.parseFloat (group 1 dm)) 1000))
                                    (errorMessage t) (stackTrace t))))) /\
   (holdsDuration (trim (group 1 m)) ->
    exists dm, regex_match false re_durationValue (trim (group 1 m)) = Some dm) /\
   (~ holdsDuration (trim (group 1 m)) -> step lines st i = st)) /\
  (isTerminal (lineAt lines i) = true ->
   exists o,
     step lines st i =
     mkState (results st
              ++ [mkTestResult (name t) (Some o) (duration t)
                               (errorMessage t) (stackTrace t)])
             None).
Proof.
  intros Hd Ht. split.
  - intros H. apply isTerminal_false in H as (H1 & H2 & H3).
    destruct (duration_not_name _ Hd) as [Hn Hm].
    unfold step. cbv zeta. rewrite H1, H2, H3, Hn, Hm, Hd, Ht.
    unfold durationBranch. split; [|split].
    + intros dm E. rewrite E.
      destruct (durationValue_some _ E) as [Wn [Wu|Wu]].
      * split; [assumption|]. left. split; [assumption|]. now rewrite Wu.
      * split; [assumption|]. right. split; [assumption|]. now rewrite Wu.
    + intros Hh.
      destruct (regex_match false re_durationValue (trim (group 1 m)))
        as [dm|] eqn:E.
      * now exists dm.
      * apply durationValue_none in E. contradiction.
    + intros Hh. apply durationValue_none in Hh. rewrite Hh.
      destruct st as [rs ct]. simpl in *. now subst ct.
  - intros H. destruct (@step_terminal lines st i H) as [o Ho]. rewrite Ho.
    unfold seal. rewrite Ht. now exists o.
Qed.

Lemma duration_marker_sets_milliseconds_witness :
  let lines := [lit "Test Name: A"; lit "Duration: 1.5 s"] in
  let sealing := [lit "Test Name: A"; lit "Duration: 5ms (Skipped cleanup)"] in
  step lines (run lines 1) 1 =
    mkState [] (Some (mkTestResult (Some (lit "A")) None (Some 1500%float)
                                   None None)) /\
  exists o, step sealing (run sealing 1) 1 =
            mkState [mkTestResult (Some (lit "A")) (Some o) None None None] None.
Proof.
  intros lines sealing. split.
  - destruct (proj1 (proj1 (@duration_marker_sets_milliseconds
                              lines (run lines 1) 1
                              (MState 15 [] [(1, lit "1.5 s")]) (newTest (lit "A"))
                              eq_refl eq_refl)
                           eq_refl)
                    (MState 5 [] [(2, lit "s"); (1, lit "1.5")]) eq_refl)
      as [_ [[E _]|[_ E]]].
    + vm_compute in E. discriminate E.
    + rewrite E. vm_compute. reflexivity.
  - apply (proj2 (@duration_marker_sets_milliseconds
                    sealing (run sealing 1) 1
                    (MState 31 [] [(1, lit "5ms (Skipped cleanup)")])
                    (newTest (lit "A")) eq_refl eq_refl)).
    vm_compute. reflexivity.
Defined.

(** C8 as stated fails: a Duration line with a well-formed number and unit,
    met with a record open, stores no duration when its text passes a
    terminal test; the record is sealed as skipped without one. *)
Lemma duration_on_terminal_line_is_not_stored :
  let lines := [lit "Test Name: A"; lit "Duration: 5ms (Skipped cleanup)"] in
  test true re_duration (lineAt lines 1) = true /\
  test false re_durationValue (lit "5ms (Skipped cleanup)") = true /\
  currentTest (run lines 1) =
    Some (mkTestResult (Some (lit "A")) None None None None) /\
  run lines 2 =
    mkState [mkTestResult (Some (lit "A")) (Some Skipped) None None None] None /\
  parseTestResults (join_nl lines) =
    [mkTestResult (Some (lit "A")) (Some Skipped) None None None].
Proof. vm_compute. repeat split; reflexivity. Qed.



End TestRunnerFacts.

(** ** The coverage provider *)

Module CoverageFacts.

Import Coverage.

Local Open Scope float_scope.

(** *** The map *)

Lemma map_get_set_eq m k v : map_get (map_set m k v) k = Some v.
Proof.
  induction m as [|[k' v'] m IH]; simpl.
  - now rewrite str_eqb_refl.
  - destruct (str_eqb k' k) eqn:E; simpl; rewrite E; [reflexivity|exact IH].
Qed.

Lemma map_get_set_neq m k v k' :
  str_eqb k k' = false -> map_get (map_set m k v) k' = map_get m k'.
Proof.
  intros Hk. induction m as [|[k0 v0] m IH]; simpl.
  - now rewrite Hk.
  - destruct (str_eqb k0 k) eqn:E; simpl.
    + apply str_eqb_eq in E. subst k0. now rewrite Hk.
    + now rewrite IH.
Qed.

Lemma map_get_set m k v k' :
  map_get (map_set m k v) k' = if str_eqb k k' then Some v else map_get m k'.
Proof.
  destruct (str_eqb k k') eqn:E.
  - apply str_eqb_eq in E. subst. apply map_get_set_eq.
  - now apply map_get_set_neq.
Qed.

Lemma map_set_In m k v k' r :
  In (k', r) (map_set m k v) -> In (k', r) m \/ (k' = k /\ r = v).
Proof.
  induction m as [|[k0 v0] m IH]; simpl.
  - intros [E|[]]. injection E as <- <-. auto.
  - destruct (str_eqb k0 k) eqn:E; simpl.
    + apply str_eqb_eq in E. subst k0. intros [E'|H]; [|auto].
      injection E' as <- <-. auto.
    + intros [E'|H]; [auto|]. destruct (IH H) as [H'|H']; auto.
Qed.

Lemma map_set_keys m k v k' :
  In k' (List.map fst (map_set m k v)) -> In k' (List.map fst m) \/ k' = k.
Proof.
  induction m as [|[k0 v0] m IH]; simpl.
  - intros [E|[]]. auto.
  - destruct (str_eqb k0 k) eqn:E; simpl.
    + intros [H|H]; auto.
    + intros [H|H]; [auto|]. destruct (IH H); auto.
Qed.

Lemma map_set_NoDup m k v :
  NoDup (List.map fst m) -> NoDup (List.map fst (map_set m k v)).
Proof.
  induction m as [|[k0 v0] m IH]; simpl; intros H.
  - constructor; [intros []|constructor].
  - inversion H as [|k1 ks Hnot Hnd]; subst.
    destruct (str_eqb k0 k) eqn:E; simpl.
    + now constructor.
    + constructor; [|now apply IH].
      intros Hin. apply map_set_keys in Hin as [Hin| ->]; [contradiction|].
      now rewrite str_eqb_refl in E.
Qed.

Lemma map_set_keyed m k v : filePath v = k -> keyed m -> keyed (map_set m k v).
Proof.
  intros Hv [Hnd Hk]. split; [now apply map_set_NoDup|].
  intros k' r Hin. apply map_set_In in Hin as [Hin|[-> ->]]; auto.
Qed.

Lemma keyed_paths m :
  keyed m -> List.map (fun kv => filePath (snd kv)) m = List.map fst m.
Proof.
  intros [_ Hk]. induction m as [|[k v] m IH]; simpl; [reflexivity|].
  f_equal.
  - apply Hk. now left.
  - apply IH. intros k' r Hin. apply Hk. now right.
Qed.

Lemma filter_absent (m : CoverageMap) k :
  ~ In k (List.map fst m) -> filter (fun kv => str_eqb (fst kv) k) m = [].
Proof.
  induction m as [|[k0 v0] m IH]; simpl; intros H; [reflexivity|].
  destruct (str_eqb k0 k) eqn:E.
  - apply str_eqb_eq in E. subst. exfalso. auto.
  - apply IH. auto.
Qed.

(** With distinct keys a key that is present is present once. *)
Lemma keyed_once (m : CoverageMap) k r :
  NoDup (List.map fst m) -> map_get m k = Some r ->
  filter (fun kv => str_eqb (fst kv) k) m = [(k, r)].
Proof.
  induction m as [|[k0 v0] m IH]; simpl; intros Hnd Hg; [discriminate|].
  inversion Hnd as [|k1 ks Hnot Hnd']; subst.
  destruct (str_eqb k0 k) eqn:E.
  - apply str_eqb_eq in E. subst k0. injection Hg as ->.
    now rewrite filter_absent.
  - now apply IH.
Qed.

(** *** Single lines of an LCOV report *)

Lemma step_SF st ln :
  startsWith ln (lit "SF:") = true ->
  step st ln =
  mkState (substring 3 ln) (Some (mkCoverage (substring 3 ln) 0 [])) (coverageData st).
Proof. unfold step. now intros ->. Qed.

Lemma endOfRecord_prefixes :
  startsWith endOfRecord (lit "SF:") = false /\
  startsWith endOfRecord (lit "DA:") = false /\
  str_eqb endOfRecord (lit "end_of_record") = true.
Proof. vm_compute. auto. Qed.

Lemma step_endOfRecord st c :
  currentCoverage st = Some c ->
  step st endOfRecord =
  mkState (currentFile st) None
          (map_set (coverageData st) (currentFile st) (close c)).
Proof.
  destruct endOfRecord_prefixes as (H1 & H2 & H3).
  unfold step. rewrite H1, H2, H3. now intros ->.
Qed.

(** What a step does to the map does not depend on the map. *)
Lemma step_store cf cc ln :
  exists cf' cc',
    (forall s, step (mkState cf cc s) ln = mkState cf' cc' s) \/
    (exists c, forall s,
        step (mkState cf cc s) ln = mkState cf' cc' (map_set s cf (close c))).
Proof.
  unfold step. simpl.
  destruct (startsWith ln (lit "SF:")); [eexists; eexists; left; reflexivity|].
  destruct (startsWith ln (lit "DA:")), cc as [c|];
    try destruct (regex_match false re_DA ln);
    destruct (str_eqb ln (lit "end_of_record"));
    try (eexists; eexists; left; reflexivity).
  all: eexists; eexists; right; exists c; reflexivity.
Qed.

Lemma step_store_unchanged st ln :
  str_eqb ln (lit "end_of_record") = false ->
  coverageData (step st ln) = coverageData st.
Proof.
  intros H. unfold step. rewrite H.
  destruct (startsWith ln (lit "SF:")); [reflexivity|].
  destruct (startsWith ln (lit "DA:")); [|reflexivity].
  destruct (currentCoverage st); [|reflexivity].
  now destruct (regex_match false re_DA ln).
Qed.

Lemma scan_store_unchanged lns : forall st,
  Forall (fun l => str_eqb l (lit "end_of_record") = false) lns ->
  coverageData (scan lns st) = coverageData st.
Proof.
  induction lns as [|l lns IH]; intros st H; [reflexivity|].
  inversion H; subst. unfold scan in *. simpl.
  rewrite IH by assumption. now apply step_store_unchanged.
Qed.

Lemma scan_app l1 l2 st : scan (l1 ++ l2) st = scan l2 (scan l1 st).
Proof. apply fold_left_app. Qed.

Lemma step_inProgress st ln : inProgress st -> inProgress (step st ln).
Proof.
  intros Hst. unfold step.
  destruct (startsWith ln (lit "SF:")).
  { intros c E. injection E as <-. now split. }
  destruct (currentCoverage st) as [c|] eqn:Ec.
  - destruct (startsWith ln (lit "DA:")).
    + destruct (regex_match false re_DA ln); [|exact Hst].
      intros c' E. injection E as <-. simpl. now apply Hst.
    + destruct (str_eqb ln (lit "end_of_record")); [|exact Hst].
      intros c' E. discriminate E.
  - destruct (startsWith ln (lit "DA:")),
             (str_eqb ln (lit "end_of_record")); exact Hst.
Qed.

Lemma close_filePath c : filePath (close c) = filePath c.
Proof. unfold close. now destruct (lines c). Qed.

Lemma scan_inProgress lns : forall st, inProgress st -> inProgress (scan lns st).
Proof.
  induction lns as [|l lns IH]; intros st Hst; [exact Hst|].
  unfold scan in *. simpl. apply IH. now apply step_inProgress.
Qed.

Lemma step_keyed st ln :
  inProgress st -> keyed (coverageData st) -> keyed (coverageData (step st ln)).
Proof.
  intros Hst Hk. unfold step.
  destruct (startsWith ln (lit "SF:")); [exact Hk|].
  destruct (currentCoverage st) as [c|] eqn:Ec.
  - destruct (startsWith ln (lit "DA:")).
    + destruct (regex_match false re_DA ln); exact Hk.
    + destruct (str_eqb ln (lit "end_of_record")); [|exact Hk].
      simpl. apply map_set_keyed; [|exact Hk].
      rewrite close_filePath. now apply Hst.
  - destruct (startsWith ln (lit "DA:")),
             (str_eqb ln (lit "end_of_record")); exact Hk.
Qed.

Lemma scan_invariant lns : forall st,
  inProgress st -> keyed (coverageData st) ->
  inProgress (scan lns st) /\ keyed (coverageData (scan lns st)).
Proof.
  induction lns as [|l lns IH]; intros st Hst Hk; [now split|].
  unfold scan in *. simpl. apply IH.
  - now apply step_inProgress.
  - now apply step_keyed.
Qed.

Lemma init_inProgress store : inProgress (init store).
Proof. intros c E. discriminate E. Qed.

Lemma parseLcovReport_keyed content store :
  keyed store -> keyed (parseLcovReport content store).
Proof.
  intros Hk. unfold parseLcovReport.
  now apply scan_invariant; [apply init_inProgress|].
Qed.

(** In a state the parser can reach, closing computes the percentage. *)
Lemma close_percentage c :
  coverage c = 0 ->
  close c = mkCoverage (filePath c) (percentage (lines c)) (lines c).
Proof.
  intros Hc. unfold close, percentage. destruct c as [f p ls]. simpl in *.
  subst p. now destruct ls.
Qed.

(** A parse writes over the map it finds: what it stores for a path is what
    it stores for it on an empty map, and other paths keep what they had. *)
Lemma scan_overrides lns : forall cf cc s s0 base,
  (forall F, map_get s F =
             match map_get s0 F with Some r => Some r | None => map_get base F end) ->
  forall F, map_get (coverageData (scan lns (mkState cf cc s))) F =
            match map_get (coverageData (scan lns (mkState cf cc s0))) F with
            | Some r => Some r
            | None => map_get base F
            end.
Proof.
  induction lns as [|l lns IH]; intros cf cc s s0 base HR; [exact HR|].
  unfold scan in *. simpl.
  destruct (step_store cf cc l) as (cf' & cc' & [E|(c & E)]); rewrite !E.
  - now apply IH.
  - apply IH. intros F. rewrite !map_get_set.
    destruct (str_eqb cf F); [reflexivity|apply HR].
Qed.

Lemma parseLcovReport_overrides content store F :
  map_get (parseLcovReport content store) F =
  match map_get (parseLcovReport content []) F with
  | Some r => Some r
  | None => map_get store F
  end.
Proof.
  unfold parseLcovReport, init. apply scan_overrides.
  intros F'. reflexivity.
Qed.

Lemma setRecords_keyed records : forall store,
  keyed store -> keyed (setRecords records store).
Proof.
  unfold setRecords.
  induction records as [|r records IH]; intros store Hs; [exact Hs|].
  simpl. apply IH. now apply map_set_keyed.
Qed.

Lemma setRecords_overrides records : forall s s0 base,
  (forall F, map_get s F =
             match map_get s0 F with Some r => Some r | None => map_get base F end) ->
  forall F, map_get (setRecords records s) F =
            match map_get (setRecords records s0) F with
            | Some r => Some r
            | None => map_get base F
            end.
Proof.
  unfold setRecords.
  induction records as [|r records IH]; intros s s0 base HR; [exact HR|].
  simpl. apply IH. intros F. rewrite !map_get_set.
  destruct (str_eqb (filePath r) F); [reflexivity|apply HR].
Qed.

Lemma parseReport_keyed rep store : keyed store -> keyed (parseReport rep store).
Proof.
  destruct rep; simpl; [apply parseLcovReport_keyed|apply setRecords_keyed].
Qed.

Lemma parseReport_overrides rep store F :
  map_get (parseReport rep store) F =
  match map_get (parseReport rep []) F with
  | Some r => Some r
  | None => map_get store F
  end.
Proof.
  destruct rep; simpl.
  - apply parseLcovReport_overrides.
  - apply setRecords_overrides. intros F'. reflexivity.
Qed.

(** A path that no SF line names, and that is not the one in progress, keeps
    the record it has. *)
Lemma scan_get_other F lns : forall st,
  str_eqb (currentFile st) F = false ->
  Forall (fun l => startsWith l (lit "SF:") = true -> substring 3 l <> F) lns ->
  map_get (coverageData (scan lns st)) F = map_get (coverageData st) F.
Proof.
  induction lns as [|l lns IH]; intros st Hcf Hl; [reflexivity|].
  inversion Hl as [|l' lns' Hl1 Hl2]; subst.
  unfold scan in *. simpl.
  destruct (startsWith l (lit "SF:")) eqn:Hsf.
  - rewrite step_SF by assumption. rewrite IH; [reflexivity| |assumption].
    simpl. apply str_eqb_neq. now apply Hl1.
  - assert (Hstep : currentFile (step st l) = currentFile st /\
                    map_get (coverageData (step st l)) F = map_get (coverageData st) F).
    { unfold step. rewrite Hsf.
      destruct (currentCoverage st) as [c|].
      - destruct (startsWith l (lit "DA:")).
        + destruct (regex_match false re_DA l); split; reflexivity.
        + destruct (str_eqb l (lit "end_of_record")); [|split; reflexivity].
          simpl. split; [reflexivity|]. now apply map_get_set_neq.
      - destruct (startsWith l (lit "DA:")),
                 (str_eqb l (lit "end_of_record")); split; reflexivity. }
    destruct Hstep as [E1 E2].
    rewrite IH; [assumption| |assumption]. now rewrite E1.
Qed.

Lemma totalCoverage_sum store : forall acc,
  fold_left (fun total kv => total + coverage (snd kv)) store acc =
  fold_left PrimFloat.add (percentages store) acc.
Proof.
  induction store as [|kv store IH]; intros acc; simpl; [reflexivity|apply IH].
Qed.

(** *** Format dispatch *)

(** C1, as the code has it: the three branches are tried in the order
    Cobertura, JSON, LCOV, and a branch is taken when the setting names its
    format or the path has its extension.  So the setting cobertura, which is
    also what an unset setting reads as, always selects the XML parser; json
    and lcov select theirs unless the extension of an earlier branch matches;
    any other setting leaves the choice to the extension. *)
Theorem format_dispatch_follows_branch_order path format :
  parseCoverageFile path (lit "cobertura") = Some CoberturaReport /\
  parseCoverageFile path (getCoverageFormat None) = Some CoberturaReport /\
  parseCoverageFile path (lit "json") =
    (if endsWith path (lit ".xml") then Some CoberturaReport else Some JsonReport) /\
  parseCoverageFile path (lit "lcov") =
    (if endsWith path (lit ".xml") then Some CoberturaReport
     else if endsWith path (lit ".json") then Some JsonReport
     else Some LcovReport) /\
  (format <> lit "cobertura" -> format <> lit "json" -> format <> lit "lcov" ->
   parseCoverageFile path format =
     (if endsWith path (lit ".xml") then Some CoberturaReport
      else if endsWith path (lit ".json") then Some JsonReport
      else if endsWith path (lit ".lcov") then Some LcovReport
      else None)).
Proof.
  unfold parseCoverageFile, getCoverageFormat.
  change (str_eqb (lit "cobertura") (lit "cobertura")) with true.
  change (str_eqb (lit "json") (lit "cobertura")) with false.
  change (str_eqb (lit "json") (lit "json")) with true.
  change (str_eqb (lit "lcov") (lit "cobertura")) with false.
  change (str_eqb (lit "lcov") (lit "json")) with false.
  change (str_eqb (lit "lcov") (lit "lcov")) with true.
  split; [reflexivity|]. split; [reflexivity|]. split; [reflexivity|].
  split; [reflexivity|].
  intros H1 H2 H3. apply str_eqb_neq in H1, H2, H3. now rewrite H1, H2, H3.
Qed.

Lemma format_dispatch_follows_branch_order_witness :
  parseCoverageFile (lit "coverage.lcov") (lit "auto") = Some LcovReport /\
  parseCoverageFile (lit "out/coverage.info") (lit "lcov") = Some LcovReport.
Proof.
  split.
  - rewrite (proj2 (proj2 (proj2 (proj2
      (format_dispatch_follows_branch_order (lit "coverage.lcov") (lit "auto")))))).
    + reflexivity.
    + discriminate.
    + discriminate.
    + discriminate.
  - rewrite (proj1 (proj2 (proj2 (proj2
      (format_dispatch_follows_branch_order (lit "out/coverage.info") (lit "lcov")))))).
    reflexivity.
Defined.

(** C1 as stated fails: with the setting lcov a report whose name ends in .xml
    goes to the XML parser, and with the setting unset a .json report does
    too. *)
Lemma format_setting_does_not_decide_first :
  parseCoverageFile (lit "coverage.cobertura.xml") (lit "lcov") = Some CoberturaReport /\
  parseCoverageFile (lit "coverage.json") (getCoverageFormat None) = Some CoberturaReport.
Proof. split; reflexivity. Qed.

(** *** The LCOV parser *)

(** C4: whenever [end_of_record] closes the record in progress, the record
    stored under the current file has the percentage covered / tracked times
    100, and 0, which is not NaN, when no line is tracked. *)
Theorem lcov_record_percentage pre store c :
  currentCoverage (scan pre (init store)) = Some c ->
  step (scan pre (init store)) endOfRecord =
    mkState (currentFile (scan pre (init store))) None
            (map_set (coverageData (scan pre (init store)))
                     (currentFile (scan pre (init store)))
                     (mkCoverage (filePath c) (percentage (lines c)) (lines c))) /\
  percentage [] = 0 /\
  PrimFloat.is_nan (percentage []) = false /\
  percentage [mkLine 1 true; mkLine 2 false; mkLine 3 true] =
    Num.of_nat 2 / Num.of_nat 3 * 100.
Proof.
  intros Hc. split; [|repeat split].
  rewrite (step_endOfRecord _ Hc). f_equal. f_equal.
  apply close_percentage.
  now apply (@scan_inProgress pre (init store) (@init_inProgress store) c Hc).
Qed.

Lemma lcov_record_percentage_witness :
  let pre := [lit "SF:src/math.cs"; lit "DA:1,5"; lit "DA:2,0"] in
  step (scan pre (init [])) endOfRecord =
    mkState (lit "src/math.cs") None
            [(lit "src/math.cs",
              mkCoverage (lit "src/math.cs") 50 [mkLine 1 true; mkLine 2 false])].
Proof.
  intros pre.
  rewrite (proj1 (@lcov_record_percentage pre []
                    (mkCoverage (lit "src/math.cs") 0 [mkLine 1 true; mkLine 2 false])
                    eq_refl)).
  vm_compute. reflexivity.
Defined.

(** C5: after any sequence of parses no two records of the map have the same
    path; and after a parse that describes a file, whatever was parsed
    before, the map has one record for that file, the one this parse builds
    on its own: nothing of an earlier record is merged into it. *)
Theorem one_record_per_file_last_parse_wins :
  (forall reports,
      NoDup (List.map (fun kv => filePath (snd kv))
                      (fold_left (fun s rep => parseReport rep s) reports []))) /\
  (forall first second store F r,
      keyed store ->
      map_get (parseReport second []) F = Some r ->
      let final := parseReport second (parseReport first store) in
      getCoverageForFile final F = Some r /\
      filter (fun kv => str_eqb (filePath (snd kv)) F) final = [(F, r)]).
Proof.
  assert (Hempty : keyed []).
  { split; [constructor|]. intros k r []. }
  split.
  - intros reports.
    assert (Hk : forall store, keyed store ->
                 keyed (fold_left (fun s rep => parseReport rep s) reports store)).
    { induction reports as [|c reports IH]; intros store Hs; [exact Hs|].
      simpl. apply IH. now apply parseReport_keyed. }
    specialize (Hk [] Hempty).
    rewrite (keyed_paths Hk). apply Hk.
  - intros first second store F r Hs Hr final.
    assert (Hk : keyed final) by now repeat apply parseReport_keyed.
    assert (Hg : map_get final F = Some r).
    { unfold final. rewrite parseReport_overrides. now rewrite Hr. }
    split; [exact Hg|].
    rewrite <- (@keyed_once final F r (proj1 Hk) Hg).
    destruct Hk as [_ Hk]. clear Hg.
    induction final as [|[k v] m IH]; simpl; [reflexivity|].
    rewrite (Hk k v) by now left.
    rewrite IH by (intros k' r' Hin; apply Hk; now right). reflexivity.
Qed.

Lemma one_record_per_file_last_parse_wins_witness :
  let first := LcovText (lit "SF:a.cs
DA:1,1
DA:2,1
end_of_record") in
  let second := LcovText (lit "SF:a.cs
DA:7,0
end_of_record") in
  let final := parseReport second (parseReport first []) in
  getCoverageForFile final (lit "a.cs") =
    Some (mkCoverage (lit "a.cs") 0 [mkLine 7 false]) /\
  filter (fun kv => str_eqb (filePath (snd kv)) (lit "a.cs")) final =
    [(lit "a.cs", mkCoverage (lit "a.cs") 0 [mkLine 7 false])].
Proof.
  intros first second.
  apply (proj2 one_record_per_file_last_parse_wins first second []).
  - split; [constructor|]. intros k r [].
  - vm_compute. reflexivity.
Defined.

(** C9: an SF line puts a fresh record in the slot and leaves the map alone,
    whatever the slot held.  When a second SF line follows with no
    [end_of_record] in between, the parse ends as if the first SF line and
    the lines between the two had not been there: nothing of the first record
    is stored, and its path keeps what the map had for it unless a later SF
    line names the same path. *)
Theorem lcov_unclosed_record_is_lost content pre l1 mid l2 post store :
  split_nl content = pre ++ l1 :: mid ++ l2 :: post ->
  startsWith l1 (lit "SF:") = true ->
  startsWith l2 (lit "SF:") = true ->
  Forall (fun l => str_eqb l (lit "end_of_record") = false) mid ->
  (forall st, step st l1 =
              mkState (substring 3 l1) (Some (mkCoverage (substring 3 l1) 0 []))
                      (coverageData st)) /\
  parseLcovReport content store = coverageData (scan (pre ++ l2 :: post) (init store)) /\
  (Forall (fun l => startsWith l (lit "SF:") = true -> substring 3 l <> substring 3 l1)
          (l2 :: post) ->
   getCoverageForFile (parseLcovReport content store) (substring 3 l1) =
   map_get (coverageData (scan pre (init store))) (substring 3 l1)).
Proof.
  intros Hsplit H1 H2 Hmid.
  assert (Hdel : scan (pre ++ l1 :: mid ++ l2 :: post) (init store) =
                 scan (l2 :: post) (scan pre (init store))).
  { rewrite scan_app.
    change (l1 :: mid ++ l2 :: post) with ([l1] ++ mid ++ l2 :: post).
    rewrite !scan_app.
    assert (Hl2 : scan [l2] (scan mid (scan [l1] (scan pre (init store)))) =
                  scan [l2] (scan pre (init store))).
    { pose proof (@scan_store_unchanged mid (scan [l1] (scan pre (init store))) Hmid)
        as E.
      unfold scan in *. simpl fold_left in *.
      rewrite !(@step_SF _ _ H2). f_equal.
      rewrite E. now rewrite (@step_SF _ _ H1). }
    change (l2 :: post) with ([l2] ++ post).
    now rewrite !scan_app, Hl2. }
  split; [|split].
  - intros st. now apply step_SF.
  - unfold parseLcovReport. now rewrite Hsplit, Hdel, scan_app.
  - intros Hpost. unfold getCoverageForFile, parseLcovReport.
    rewrite Hsplit, Hdel.
    inversion Hpost as [|l' ls' Hl2 Hrest]; subst.
    change (l2 :: post) with ([l2] ++ post). rewrite scan_app.
    rewrite scan_get_other; [| |assumption].
    + unfold scan. simpl. now rewrite (@step_SF _ _ H2).
    + unfold scan. simpl. rewrite (@step_SF _ _ H2). simpl.
      apply str_eqb_neq. now apply Hl2.
Qed.

Lemma lcov_unclosed_record_is_lost_witness :
  let content := lit "SF:a.cs
DA:1,1
SF:b.cs
DA:4,0
end_of_record" in
  parseLcovReport content [] =
    [(lit "b.cs", mkCoverage (lit "b.cs") 0 [mkLine 4 false])] /\
  getCoverageForFile (parseLcovReport content []) (lit "a.cs") = None.
Proof.
  intros content.
  destruct (@lcov_unclosed_record_is_lost
              content [] (lit "SF:a.cs") [lit "DA:1,1"] (lit "SF:b.cs")
              [lit "DA:4,0"; lit "end_of_record"] []
              eq_refl eq_refl eq_refl)
    as (_ & Hparse & Hget).
  - repeat constructor.
  - split.
    + rewrite Hparse. vm_compute. reflexivity.
    + change (lit "a.cs") with (substring 3 (lit "SF:a.cs")).
      rewrite Hget; [reflexivity|].
      repeat constructor; intros _; vm_compute; discriminate.
Defined.

(** *** Summary *)

(** C6: the overall coverage is the mean of the stored percentages, each
    record counting once whatever lines it has, and 0 for an empty map; two
    records with 100 and 50 give 75. *)
Theorem overall_coverage_is_unweighted_mean :
  getOverallCoverage [] = 0 /\
  (forall store, getOverallCoverage store = mean (percentages store)) /\
  (forall store (relined : jsstring * CoverageData -> list LineInfo),
      getOverallCoverage
        (List.map (fun kv => (fst kv, mkCoverage (filePath (snd kv))
                                                 (coverage (snd kv)) (relined kv)))
                  store)
      = getOverallCoverage store) /\
  (forall k1 k2 r1 r2,
      coverage r1 = 100 -> coverage r2 = 50 ->
      getOverallCoverage [(k1, r1); (k2, r2)] = 75).
Proof.
  assert (Hmean : forall store, getOverallCoverage store = mean (percentages store)).
  { intros [|kv store]; [reflexivity|].
    unfold getOverallCoverage, mean, totalCoverage, percentages.
    rewrite totalCoverage_sum. simpl. now rewrite length_map. }
  split; [reflexivity|]. split; [exact Hmean|]. split.
  - intros store relined. rewrite !Hmean. f_equal.
    unfold percentages. rewrite map_map. reflexivity.
  - intros k1 k2 r1 r2 E1 E2. rewrite Hmean. unfold percentages. simpl.
    rewrite E1, E2. vm_compute. reflexivity.
Qed.

Lemma overall_coverage_is_unweighted_mean_witness :
  getOverallCoverage
    [(lit "small.cs", mkCoverage (lit "small.cs") 100 [mkLine 1 true]);
     (lit "large.cs", mkCoverage (lit "large.cs") 50
                                 [mkLine 1 true; mkLine 2 false;
                                  mkLine 3 true; mkLine 4 false])] = 75.
Proof.
  apply (proj2 (proj2 (proj2 overall_coverage_is_unweighted_mean)));
    reflexivity.
Defined.

End CoverageFacts.

(** ** The embedding on sample inputs *)

Module Scenarios.

Local Open Scope float_scope.

(** A run with a passed and a failed test. *)
Example two_tests :
  TestRunner.parseTestResults
    (join_nl [lit "Test Name: Addition_ReturnsSum"; lit "Duration: 12ms";
              lit "Passed!"; lit "Test Name: Division_ByZero_Throws";
              lit "Error Message: DivideByZeroException"; lit "Failed!"]) =
  [TestRunner.mkTestResult (Some (lit "Addition_ReturnsSum"))
                           (Some TestRunner.Passed) (Some 12) None None;
   TestRunner.mkTestResult (Some (lit "Division_ByZero_Throws"))
                           (Some TestRunner.Failed) None
                           (Some (lit "DivideByZeroException")) None].
Proof. vm_compute. reflexivity. Qed.

(** A glyph line seals too, and a line ending in CR is no name marker:
    [.] stops at a line terminator and [$] wants the end of the line. *)
Example glyph_and_carriage_return :
  TestRunner.parseTestResults
    (join_nl [lit "Test Name: A"; lit "Test Name: B" ++ [13%N];
              [TestRunner.checkMark] ++ lit " A [2 ms]"]) =
  [TestRunner.setOutcome (TestRunner.newTest (lit "A")) TestRunner.Passed].
Proof. vm_compute. reflexivity. Qed.

(** The name pattern gives white space back to its group when nothing else
    follows the label; the trimmed name is then empty. *)
Example name_of_white_space :
  option_map (group 1) (regex_match true TestRunner.re_testName (lit "test name:  ")) =
    Some (lit " ") /\
  TestRunner.run [lit "test name:  "] 1 =
    TestRunner.mkState [] (Some (TestRunner.newTest [])).
Proof. vm_compute. split; reflexivity. Qed.

(** The duration pattern matches at the first place it can. *)
Example duration_searches :
  TestRunner.durationBranch (lit "took 1.5.25 ms") (TestRunner.newTest []) =
    TestRunner.setDuration (TestRunner.newTest []) 5.25 /\
  TestRunner.durationBranch (lit "2 seconds") (TestRunner.newTest []) =
    TestRunner.setDuration (TestRunner.newTest []) 2000 /\
  TestRunner.durationBranch (lit "2 minutes") (TestRunner.newTest []) =
    TestRunner.newTest [].
Proof. vm_compute. repeat split; reflexivity. Qed.

(** [parseFloat] rounds to the nearest double. *)
Example parseFloat_rounds :
  Num.parseFloat (lit "0.1") = 0x1.999999999999ap-4 /\
  Num.parseFloat (lit "9007199254740993") = 9007199254740992 /\
  Num.parseFloat (lit "12") = 12.
Proof. vm_compute. repeat split; reflexivity. Qed.

(** An LCOV report of one file with one of two lines covered. *)
Example one_file_half_covered :
  Coverage.parseLcovReport
    (join_nl [lit "SF:src/math.cs"; lit "DA:1,5"; lit "DA:2,0"; lit "end_of_record"])
    [] =
  [(lit "src/math.cs",
    Coverage.mkCoverage (lit "src/math.cs") 50
                        [Coverage.mkLine 1 true; Coverage.mkLine 2 false])].
Proof. vm_compute. reflexivity. Qed.

End Scenarios.

(** ** More on the test-output parser *)

Module TestRunnerMore.

Import TestRunner TestStore TestRunnerFacts.

(** *** The records returned *)

Lemma durationBranch_name m1 t : name (durationBranch m1 t) = name t.
Proof.
  unfold durationBranch. now destruct (regex_match false re_durationValue _).
Qed.

Lemma step_complete lines st i : complete st -> complete (step lines st i).
Proof.
  intros Hst.
  assert (Hseal : forall o, complete (seal o st)).
  { intros o. unfold seal. destruct (currentTest st) as [t|] eqn:Et.
    - split; simpl; [|discriminate].
      apply Forall_app. split; [apply Hst|]. constructor; [|constructor].
      simpl. split; [now apply Hst|discriminate].
    - exact Hst. }
  unfold step. cbv zeta.
  repeat match goal with
         | |- complete (seal _ _) => apply Hseal
         | |- complete st => exact Hst
         | |- complete (mkState _ _) =>
             split; simpl; [apply Hst|];
             let t := fresh "t" in let E := fresh "E" in
             intros t E; injection E as <-; simpl;
             rewrite ?durationBranch_name; try discriminate; now apply Hst
         | |- context [match ?e with _ => _ end] => destruct e eqn:?
         | |- context [if ?e then _ else _] => destruct e eqn:?
         end.
Qed.

Lemma run_complete lines n : complete (run lines n).
Proof.
  induction n as [|n IH].
  - split; simpl; [constructor|discriminate].
  - rewrite run_S. now apply step_complete.
Qed.

(** X1: every record [parseTestResults] returns has a name (which may be the
    empty string) and an outcome. *)
Theorem returned_records_are_named_and_sealed output :
  Forall (fun r => (exists n, name r = Some n) /\ (exists o, outcome r = Some o))
         (parseTestResults output).
Proof.
  unfold parseTestResults, parseLines.
  destruct (run_complete (split_nl output) (List.length (split_nl output)))
    as [Hr _].
  eapply Forall_impl; [|exact Hr].
  intros r [Hn Ho]. split.
  - destruct (name r) as [n|]; [now exists n|contradiction].
  - destruct (outcome r) as [o|]; [now exists o|contradiction].
Qed.

(** *** Sealed records stay *)

Lemma step_results_grow lines st i :
  exists tail, results (step lines st i) = results st ++ tail.
Proof.
  destruct (isTerminal (lineAt lines i)) eqn:Ht.
  - destruct (@step_terminal lines st i Ht) as [o ->]. unfold seal.
    destruct (currentTest st) as [t|]; simpl.
    + now exists [setOutcome t o].
    + exists []. now rewrite app_nil_r.
  - rewrite step_nonterminal_results by assumption.
    exists []. now rewrite app_nil_r.
Qed.

(** X2: the records sealed by the first [n] lines are, unchanged and in the
    same order, the first records of the result. *)
Theorem sealed_records_are_a_prefix lines n m :
  n <= m ->
  exists tail, results (run lines m) = results (run lines n) ++ tail.
Proof.
  induction 1 as [|m Hle [tail IH]].
  - exists []. now rewrite app_nil_r.
  - rewrite run_S.
    destruct (step_results_grow lines (run lines m) m) as [t Ht].
    exists (tail ++ t). now rewrite Ht, IH, app_assoc.
Qed.

Lemma sealed_records_are_a_prefix_witness :
  let lines := [lit "Test Name: A"; lit "Passed!"; lit "Test Name: B"; lit "Failed!"] in
  exists tail,
    parseLines lines = [setOutcome (newTest (lit "A")) Passed] ++ tail.
Proof.
  intros lines.
  assert (H : 2 <= 4) by lia.
  exact (@sealed_records_are_a_prefix lines 2 4 H).
Defined.

(** *** One record for each name line at most *)

Lemma countLines_S p lines n :
  n < List.length lines ->
  countLines p lines (S n) =
  countLines p lines n + (if p (lineAt lines n) then 1 else 0).
Proof.
  intros Hn. unfold countLines.
  assert (E : firstn (S n) lines = firstn n lines ++ [lineAt lines n]).
  { revert n Hn. unfold lineAt.
    induction lines as [|l lines IH]; intros [|n] Hn; simpl in *; try lia;
      [reflexivity|]. f_equal. apply IH. lia. }
  rewrite E, filter_app, length_app. simpl.
  now destruct (p (lineAt lines n)).
Qed.

(** A line that is neither a terminal marker nor a Test Name line leaves the
    slot empty or filled as it was. *)
Lemma step_keeps_slot lines st i :
  isTerminal (lineAt lines i) = false ->
  regex_match true re_testName (lineAt lines i) = None ->
  openCount (step lines st i) = openCount st.
Proof.
  intros Ht Hn. apply isTerminal_false in Ht as (H1 & H2 & H3).
  unfold openCount, step. cbv zeta. rewrite H1, H2, H3, Hn.
  destruct (currentTest st) as [t|] eqn:E.
  - destruct (regex_match true re_testMethod (lineAt lines i));
      [destruct (nameUnset t); simpl; now rewrite ?E|].
    destruct (regex_match true re_duration (lineAt lines i)); [reflexivity|].
    destruct (regex_match true re_errorMessage (lineAt lines i)); [reflexivity|].
    destruct (test true re_stackTrace (lineAt lines i)); simpl; now rewrite ?E.
  - destruct (regex_match true re_testMethod (lineAt lines i)); [now rewrite E|].
    destruct (regex_match true re_duration (lineAt lines i)); [now rewrite E|].
    destruct (regex_match true re_errorMessage (lineAt lines i)); [now rewrite E|].
    destruct (test true re_stackTrace (lineAt lines i)); now rewrite E.
Qed.

Lemma step_counts lines st i :
  List.length (results (step lines st i)) + openCount (step lines st i)
  <= List.length (results st) + openCount st
     + (if opensRecord (lineAt lines i) then 1 else 0) /\
  List.length (results (step lines st i))
  <= List.length (results st) + (if isTerminal (lineAt lines i) then 1 else 0).
Proof.
  unfold opensRecord.
  destruct (isTerminal (lineAt lines i)) eqn:Ht.
  - destruct (@step_terminal lines st i Ht) as [o ->]. unfold seal, openCount.
    destruct (currentTest st) eqn:E; simpl; rewrite ?E, ?length_app; simpl; lia.
  - pose proof (@step_nonterminal_results lines st i Ht) as Hr. rewrite Hr.
    split; [|lia]. simpl. unfold test.
    destruct (regex_match true re_testName (lineAt lines i)) eqn:Hn.
    + unfold openCount. destruct (currentTest (step lines st i)), (currentTest st); lia.
    + rewrite (step_keeps_slot _ _ _ Ht Hn). lia.
Qed.

Lemma run_counts lines n :
  n <= List.length lines ->
  List.length (results (run lines n)) + openCount (run lines n)
  <= countLines opensRecord lines n /\
  List.length (results (run lines n)) <= countLines isTerminal lines n.
Proof.
  induction n as [|n IH]; intros Hn.
  - unfold countLines, run, openCount. simpl. lia.
  - destruct IH as [IH1 IH2]; [lia|].
    rewrite run_S, !countLines_S by lia.
    destruct (step_counts lines (run lines n) n) as [S1 S2]. lia.
Qed.

(** X3: the parser returns no more records than the output has lines that
    open one (Test Name lines that are no terminal marker), and no more than
    it has terminal markers; terminal markers with no record open add nothing. *)
Theorem one_record_per_name_line_at_most output :
  List.length (parseTestResults output)
    <= List.length (filter opensRecord (split_nl output)) /\
  List.length (parseTestResults output)
    <= List.length (filter isTerminal (split_nl output)).
Proof.
  unfold parseTestResults, parseLines.
  destruct (@run_counts (split_nl output) (List.length (split_nl output)))
    as [H1 H2]; [lia|].
  unfold countLines in *. rewrite firstn_all in *. lia.
Qed.

End TestRunnerMore.

(** ** Strings once more *)

Module TextFacts.

Lemma dropWhile_split p x :
  exists pre, x = pre ++ dropWhile p x /\ Forall (fun c => p c = true) pre.
Proof.
  induction x as [|c x (pre & E & Hpre)]; simpl.
  - exists []. split; [reflexivity|constructor].
  - destruct (p c) eqn:Hc.
    + exists (c :: pre). simpl. split; [now f_equal|now constructor].
    + exists []. split; [reflexivity|constructor].
Qed.

Lemma dropWhile_head p x d r : dropWhile p x = d :: r -> p d = false.
Proof.
  induction x as [|c x IH]; simpl; [discriminate|].
  destruct (p c) eqn:Hc; [exact IH|]. intros E. now injection E as <- _.
Qed.

Lemma dropWhile_idem p x : dropWhile p (dropWhile p x) = dropWhile p x.
Proof.
  destruct (dropWhile p x) as [|d r] eqn:E; [reflexivity|].
  simpl. now rewrite (dropWhile_head _ _ E).
Qed.

Lemma dropWhile_all p x :
  Forall (fun c => p c = true) x -> dropWhile p x = [].
Proof. induction 1 as [|c x Hc _ IH]; simpl; [reflexivity|now rewrite Hc]. Qed.

Lemma dropWhile_app_stop p pre d r :
  Forall (fun c => p c = true) pre -> p d = false ->
  dropWhile p (pre ++ d :: r) = d :: r.
Proof.
  induction 1 as [|c x Hc _ IH]; simpl; intros Hd; [now rewrite Hd|].
  rewrite Hc. now apply IH.
Qed.

(** [trim] leaves a text that begins with something other than white space
    not empty, and does not see leading white space. *)
Lemma trim_dropWhile x : trim (dropWhile isSpace x) = trim x.
Proof. unfold trim. now rewrite dropWhile_idem. Qed.

Lemma trim_nonempty x d r : dropWhile isSpace x = d :: r -> trim x <> [].
Proof.
  intros E. unfold trim. rewrite E. simpl.
  pose proof (dropWhile_head _ _ E) as Hd.
  destruct (dropWhile_split isSpace (rev r ++ [d])) as (pre & Epre & Hpre).
  destruct (dropWhile isSpace (rev r ++ [d])) as [|e t] eqn:Et.
  - exfalso. rewrite app_nil_r in Epre. rewrite <- Epre in Hpre.
    apply Forall_app in Hpre as [_ Hd']. inversion Hd'; subst. congruence.
  - intros Hrev. apply (f_equal (@List.length N)) in Hrev.
    rewrite length_rev in Hrev. discriminate.
Qed.

(** A trimmed text has white space at neither end, so trimming is idempotent. *)
Lemma trim_idem x : trim (trim x) = trim x.
Proof.
  unfold trim at 2 3.
  set (a := dropWhile isSpace x).
  set (b := dropWhile isSpace (rev a)).
  assert (Hb : dropWhile isSpace b = b) by apply dropWhile_idem.
  assert (Hrb : dropWhile isSpace (rev b) = rev b).
  { destruct b as [|e t] eqn:Eb; [reflexivity|].
    destruct (dropWhile_split isSpace (rev a)) as (pre & Epre & _).
    fold b in Epre. rewrite Eb in Epre.
    apply (f_equal (@rev N)) in Epre. rewrite rev_involutive, rev_app_distr in Epre.
    destruct (rev (e :: t)) as [|h tl] eqn:Er.
    - apply (f_equal (@List.length N)) in Er. rewrite length_rev in Er. discriminate.
    - simpl in Epre. unfold a in Epre.
      simpl. now rewrite (dropWhile_head _ _ Epre). }
  unfold trim. now rewrite Hrb, rev_involutive, Hb.
Qed.

End TextFacts.

(** ** Test discovery and the stored test runs *)

Module TestStoreFacts.

Import TestRunner TestStore TestRunnerFacts RegexFacts TextFacts.

(** *** The listing pattern *)

Lemma nonspace_not_terminator c :
  negb (isSpace c) = true -> negb (isLineTerminator c) = true.
Proof.
  unfold isSpace. destruct (isLineTerminator c); [|reflexivity].
  now rewrite orb_true_r.
Qed.

Lemma listed_inv i suf y :
  Matches false re_listed (MState i suf []) y ->
  i = 0 /\ listsTest suf = true /\ group 1 y = dropWhile isSpace suf.
Proof.
  unfold re_listed. intros M.
  apply Matches_Seq_inv in M as (x0 & Mb & M).
  apply Matches_Bol_start in Mb as [Hi ->]. simpl in Hi.
  apply Matches_Seq_inv in M as (x1 & Ms & M).
  apply Matches_Star_Cls_inv in Ms as (ws & s1 & Hws & Hs1 & ->). simpl in Hs1.
  apply Matches_Seq_inv in M as (x2 & Mg & Me).
  apply Matches_Grp_inv in Mg as (y0 & Mg & ->).
  apply Matches_Seq_inv in Mg as (x3 & Mp & Md).
  apply Matches_Plus_Cls_inv in Mp as (t & s2 & Ht & Dt & Hs2 & ->). simpl in Hs2.
  apply Matches_Star_Cls_inv in Md as (u & s3 & Du & Hs3 & ->). simpl in Hs3.
  apply Matches_Eol_end in Me as [Hr ->]. simpl in Hr. subst s3 s2 s1 suf.
  rewrite app_nil_r.
  destruct t as [|d t]; [congruence|].
  inversion Dt as [|d' t' Hd Dt']; subst.
  assert (Hdrop : dropWhile isSpace (ws ++ (d :: t) ++ u) = (d :: t) ++ u).
  { simpl. apply dropWhile_app_stop; [assumption|].
    now apply negb_true_iff in Hd. }
  split; [reflexivity|]. split.
  - unfold listsTest. rewrite Hdrop. simpl app. cbv iota.
    apply forallb_forall. intros c Hc. change (d :: t ++ u) with ((d :: t) ++ u) in Hc.
    apply in_app_or in Hc as [Hc|Hc].
    + apply nonspace_not_terminator.
      rewrite Forall_forall in Dt. now apply (Dt c).
    + rewrite Forall_forall in Du. now apply Du.
  - rewrite Hdrop. unfold group, capture. simpl.
    apply firstn_all2. simpl. rewrite length_app. lia.
Qed.

(** A line that lists a test is matched. *)
Lemma listed_intro l :
  listsTest l = true -> exists y, Matches false re_listed (MState 0 l []) y.
Proof.
  unfold listsTest. intros H.
  destruct (dropWhile_split isSpace l) as (ws & El & Hws).
  destruct (dropWhile isSpace l) as [|d r] eqn:Ed; [discriminate|].
  pose proof (dropWhile_head _ _ Ed) as Hd.
  rewrite El. clear El Ed.
  simpl in H. apply andb_true_iff in H as [_ Hr].
  rewrite forallb_forall in Hr.
  set (x1 := MState (0 + List.length ws) (d :: r) []).
  set (y0 := MState (S (0 + List.length ws) + List.length r) [] []).
  exists (capture 1 x1 y0). unfold re_listed.
  apply M_Seq with (y := MState 0 (ws ++ d :: r) []); [now constructor|].
  apply M_Seq with (y := x1); [now apply Matches_Star_Cls_intro|].
  apply M_Seq with (y := capture 1 x1 y0); [|now constructor].
  apply M_Grp.
  apply M_Seq with (y := MState (S (0 + List.length ws)) r []).
  - unfold Plus, nonspace.
    apply M_Seq with (y := MState (S (0 + List.length ws)) r []).
    + apply (@M_Cls false _ d r x1); [reflexivity|]. now rewrite Hd.
    + constructor.
  - unfold y0. rewrite <- (app_nil_r r) at 1.
    apply Matches_Star_Cls_intro. apply Forall_forall. exact Hr.
Qed.

(** What the loop of [discoverTests] does with a line. *)
Lemma discoverLine_spec acc l :
  discoverLine acc l = if listsTest l then acc ++ [trim l] else acc.
Proof.
  unfold discoverLine, regex_match.
  destruct (search_from false re_listed 0 l) as [m|] eqn:E.
  - apply search_sound in E as (pre & suf & -> & M).
    apply listed_inv in M as (Hi & Hl & Hg).
    destruct pre; [|discriminate]. simpl in *.
    rewrite Hl, Hg, trim_dropWhile.
    unfold listsTest in Hl.
    destruct (dropWhile isSpace suf) as [|d r] eqn:Ed; [discriminate|].
    pose proof (trim_nonempty _ Ed) as Hne.
    now destruct (trim suf).
  - destruct (listsTest l) eqn:Hl; [|reflexivity].
    exfalso. apply listed_intro in Hl as [y My].
    exact (@search_complete false _ _ 0 E [] l y eq_refl My).
Qed.

Lemma discover_fold lines : forall acc,
  fold_left discoverLine lines acc =
  acc ++ List.map trim (filter listsTest lines).
Proof.
  induction lines as [|l lines IH]; intros acc; simpl.
  - now rewrite app_nil_r.
  - rewrite IH, discoverLine_spec.
    destruct (listsTest l); [|reflexivity].
    simpl. now rewrite <- app_assoc.
Qed.

(** X4: [discoverTests] lists, in order, the trimmed text of every line that
    holds something other than white space and no line terminator after it;
    the names are not empty and have no white space at either end. *)
Theorem discovered_tests_are_trimmed_lines output :
  discoverTests output = List.map trim (filter listsTest (split_nl output)) /\
  Forall (fun n => n <> [] /\ trim n = n) (discoverTests output).
Proof.
  assert (E : discoverTests output =
              List.map trim (filter listsTest (split_nl output))).
  { unfold discoverTests. now rewrite discover_fold. }
  split; [exact E|]. rewrite E.
  apply Forall_forall. intros n Hn.
  apply in_map_iff in Hn as (l & <- & Hl).
  apply filter_In in Hl as [_ Hl]. split; [|apply trim_idem].
  unfold listsTest in Hl.
  destruct (dropWhile isSpace l) as [|d r] eqn:Ed; [discriminate|].
  exact (trim_nonempty _ Ed).
Qed.

(** *** The stored runs *)

Lemma tm_get_set m k v k' :
  tm_get (tm_set m k v) k' = if str_eqb k k' then Some v else tm_get m k'.
Proof.
  induction m as [|[k0 v0] m IH]; simpl.
  - reflexivity.
  - destruct (str_eqb k0 k) eqn:E; simpl.
    + apply str_eqb_eq in E. subst k0. now destruct (str_eqb k k').
    + rewrite IH. destruct (str_eqb k k') eqn:E'; [|reflexivity].
      apply str_eqb_eq in E'. subst k'. now rewrite E.
Qed.

Lemma tm_set_sealed m k v :
  Forall (fun r => outcome r <> None) v -> sealedMap m -> sealedMap (tm_set m k v).
Proof.
  intros Hv. unfold sealedMap.
  induction m as [|[k0 v0] m IH]; simpl; intros Hm.
  - now constructor.
  - inversion Hm; subst. destruct (str_eqb k0 k); constructor; auto.
Qed.

Lemma parse_sealed output :
  Forall (fun r => outcome r <> None) (parseTestResults output).
Proof.
  unfold parseTestResults, parseLines. apply run_sealedOnly.
Qed.

Lemma runAll_sealed runs : forall m, sealedMap m -> sealedMap (runAll m runs).
Proof.
  unfold runAll.
  induction runs as [|[p [out|]] runs IH]; intros m Hm; simpl.
  - exact Hm.
  - apply IH. apply tm_set_sealed; [apply parse_sealed|exact Hm].
  - now apply IH.
Qed.

Lemma outcomes_partition rs :
  Forall (fun r => outcome r <> None) rs ->
  List.length (filter (hasOutcome Passed) rs)
  + List.length (filter (hasOutcome Failed) rs)
  + List.length (filter (hasOutcome Skipped) rs) = List.length rs.
Proof.
  induction 1 as [|r rs Hr _ IH]; simpl; [reflexivity|].
  unfold hasOutcome in *.
  destruct (outcome r) as [[| |]|]; simpl; try lia. contradiction.
Qed.

(** X5: after any sequence of test runs the passed, failed and skipped counts
    of the summary add up to its total. *)
Theorem summary_counts_add_up runs :
  passed (getTestSummary (runAll [] runs))
  + failed (getTestSummary (runAll [] runs))
  + skipped (getTestSummary (runAll [] runs))
  = total (getTestSummary (runAll [] runs)).
Proof.
  unfold getTestSummary. simpl. apply outcomes_partition.
  assert (H : sealedMap (runAll [] runs)) by (apply runAll_sealed; constructor).
  unfold sealedMap in H.
  induction H as [|kv m Hkv _ IH]; simpl; [constructor|].
  apply Forall_app. now split.
Qed.

(** X6: after a run of a project with a non-empty path, [getTestResults] for
    that path gives what the run returned, the parse of its output, and the
    results of every other project (asked for by its non-empty path) are what
    they were; a run whose command
    fails returns nothing and leaves the map alone; the empty path asks for
    the results of all projects. *)
Theorem run_then_lookup store p out :
  p <> [] ->
  getTestResults (fst (runTestsForProject store p (Some out))) (Some p)
    = parseTestResults out /\
  snd (runTestsForProject store p (Some out)) = parseTestResults out /\
  (forall q, q <> [] -> q <> p ->
     getTestResults (fst (runTestsForProject store p (Some out))) (Some q)
     = getTestResults store (Some q)) /\
  runTestsForProject store p None = (store, []) /\
  getTestResults store (Some []) = getTestResults store None.
Proof.
  intros Hp. simpl. repeat split.
  - destruct p as [|c p]; [congruence|]. simpl.
    now rewrite tm_get_set, str_eqb_refl.
  - intros [|d q] Hne Hq; [congruence|]. simpl. rewrite tm_get_set.
    apply not_eq_sym in Hq. apply str_eqb_neq in Hq. now rewrite Hq.
Qed.

Lemma run_then_lookup_witness :
  getTestResults
    (fst (runTestsForProject [] (lit "tests/App.Tests.csproj")
            (Some (lit "Test Name: A
Passed!"))))
    (Some (lit "tests/App.Tests.csproj"))
  = [setOutcome (newTest (lit "A")) Passed].
Proof.
  assert (Hp : lit "tests/App.Tests.csproj" <> []) by (vm_compute; discriminate).
  etransitivity;
    [exact (proj1 (@run_then_lookup [] (lit "tests/App.Tests.csproj")
                     (lit "Test Name: A
Passed!") Hp))|].
  vm_compute. reflexivity.
Defined.

Lemma tm_set_total m k v :
  List.length (flat_map snd (tm_set m k v)) + List.length (storedFor m k)
  = List.length (flat_map snd m) + List.length v.
Proof.
  unfold storedFor.
  induction m as [|[k0 v0] m IH]; simpl.
  - rewrite app_nil_r. lia.
  - destruct (str_eqb k0 k); simpl; rewrite !length_app; lia.
Qed.

(** X7: a run replaces the earlier results of its project: the total of the
    summary afterwards is the old total, less the results the project had,
    plus the results of this run. *)
Theorem rerun_replaces_in_the_totals store p out :
  total (getTestSummary (fst (runTestsForProject store p (Some out))))
  + List.length (storedFor store p)
  = total (getTestSummary store) + List.length (parseTestResults out).
Proof. simpl. apply tm_set_total. Qed.

End TestStoreFacts.

(** ** More on LCOV reports *)

Module LcovFacts.

Import Coverage Lcov CoverageFacts RegexFacts.
Import TestRunner(digits).

(** *** The data lines *)

Lemma firstn_prefix (a b : jsstring) k :
  k = List.length a -> firstn k (a ++ b) = a.
Proof.
  intros ->. rewrite firstn_app, Nat.sub_diag, firstn_all. simpl.
  apply app_nil_r.
Qed.

Lemma DA_inv i suf y :
  Matches false re_DA (MState i suf []) y ->
  i = 0 /\
  exists n h, digits n /\ digits h /\
              suf = lit "DA:" ++ n ++ 44%N :: h /\
              group 1 y = n /\ group 2 y = h.
Proof.
  unfold re_DA. intros M.
  apply Matches_Seq_inv in M as (x0 & Mb & M).
  apply Matches_Bol_start in Mb as [Hi ->]. simpl in Hi. subst i.
  apply Matches_Seq_inv in M as (x1 & Ms & M).
  apply (@Matches_Str_inv (lit "DA:")) in Ms as (s1 & Hs1 & ->). simpl in Hs1.
  apply Matches_Seq_inv in M as (x2 & Mg & M).
  apply Matches_Grp_inv in Mg as (y1 & Mg & ->).
  apply Matches_Plus_Cls_inv in Mg as (n & s2 & Hn & Dn & Hs2 & ->). simpl in Hs2.
  apply Matches_Seq_inv in M as (x3 & Mc & M).
  apply Matches_Chr_inv in Mc as (s3 & Hs3 & ->). simpl in Hs3.
  apply Matches_Seq_inv in M as (x4 & Mg & Me).
  apply Matches_Grp_inv in Mg as (y2 & Mg & ->).
  apply Matches_Plus_Cls_inv in Mg as (h & s4 & Hh & Dh & Hs4 & ->). simpl in Hs4.
  apply Matches_Eol_end in Me as [He ->]. simpl in He. subst s4 s3 s2 s1 suf.
  split; [reflexivity|].
  exists n, h. rewrite app_nil_r.
  split; [now split|]. split; [now split|]. split; [reflexivity|].
  unfold group, capture. simpl. split.
  - apply firstn_prefix. lia.
  - apply firstn_all2. lia.
Qed.

Lemma DA_intro n h :
  digits n -> digits h ->
  exists y, Matches false re_DA (MState 0 (lit "DA:" ++ n ++ 44%N :: h) []) y.
Proof.
  intros [Hn Dn] [Hh Dh].
  set (x1 := MState (0 + 3) (n ++ 44%N :: h) []).
  set (y1 := MState (0 + 3 + List.length n) (44%N :: h) []).
  set (x2 := MState (S (0 + 3 + List.length n)) h (caps (capture 1 x1 y1))).
  set (y2 := MState (S (0 + 3 + List.length n) + List.length h) []
                    (caps (capture 1 x1 y1))).
  exists (capture 2 x2 y2). unfold re_DA.
  apply M_Seq with (y := MState 0 (lit "DA:" ++ n ++ 44%N :: h) []);
    [now constructor|].
  apply M_Seq with (y := x1); [apply (Matches_Str_intro (lit "DA:"))|].
  apply M_Seq with (y := capture 1 x1 y1).
  { apply M_Grp. now apply Matches_Plus_Cls_intro. }
  apply M_Seq with (y := x2); [apply Matches_Chr_intro|].
  apply M_Seq with (y := capture 2 x2 y2); [|now constructor].
  apply M_Grp. unfold x2, y2. rewrite <- (app_nil_r h) at 1.
  now apply Matches_Plus_Cls_intro.
Qed.

Lemma digits_no_comma n : digits n -> ~ In 44%N n.
Proof.
  intros [_ Dn] Hin. rewrite Forall_forall in Dn. now apply Dn in Hin.
Qed.

(** The two numbers of a data line are determined by the line. *)
Lemma DA_fields_unique n : forall n' h h',
  ~ In 44%N n -> ~ In 44%N n' ->
  n ++ 44%N :: h = n' ++ 44%N :: h' -> n = n' /\ h = h'.
Proof.
  induction n as [|d n IH]; intros [|d' n'] h h' Hn Hn' E; simpl in *.
  - injection E as ->. auto.
  - injection E as <- _. exfalso. apply Hn'. now left.
  - injection E as -> _. exfalso. apply Hn. now left.
  - injection E as <- E. apply IH in E as [-> ->]; auto.
Qed.

Lemma DA_prefix_not_SF ln :
  startsWith ln (lit "DA:") = true -> startsWith ln (lit "SF:") = false.
Proof.
  destruct ln as [|d ln]; [discriminate|]. intros H.
  change (N.eqb 68 d && startsWith ln (lit "A:") = true) in H.
  change (N.eqb 83 d && startsWith ln (lit "F:") = false).
  apply andb_true_iff in H as [H _]. apply N.eqb_eq in H. now subst d.
Qed.

(** X8: with a record in progress, a line [DA:<digits>,<digits>] adds the
    entry of that line and hit count to it, and a line that starts with [DA:]
    and has any other shape (a third field, a sign, a blank) changes nothing. *)
Theorem data_line_must_be_two_numbers st c ln :
  currentCoverage st = Some c ->
  startsWith ln (lit "DA:") = true ->
  (forall n h, digits n -> digits h -> ln = lit "DA:" ++ n ++ 44%N :: h ->
     step st ln =
     mkState (currentFile st)
             (Some (pushLine c (mkLine (Num.parseInt n)
                                       (PrimFloat.ltb 0%float (Num.parseInt h)))))
             (coverageData st)) /\
  ((forall n h, digits n -> digits h -> ln <> lit "DA:" ++ n ++ 44%N :: h) ->
   step st ln = st).
Proof.
  intros Hc Hda. pose proof (DA_prefix_not_SF _ Hda) as Hsf.
  unfold step. rewrite Hsf, Hda, Hc. unfold regex_match. split.
  - intros n h Dn Dh ->.
    destruct (search_from false re_DA 0 _) as [m|] eqn:E.
    + apply search_sound in E as (pre & suf & Epre & M).
      apply DA_inv in M as (Hi & n' & h' & Dn' & Dh' & -> & -> & ->).
      destruct pre; [|discriminate].
      simpl in Epre. injection Epre as Epre.
      apply DA_fields_unique in Epre as [-> ->];
        [reflexivity|now apply digits_no_comma|now apply digits_no_comma].
    + exfalso. destruct (DA_intro Dn Dh) as [y My].
      exact (@search_complete false _ _ 0 E [] _ y eq_refl My).
  - intros Hno.
    destruct (search_from false re_DA 0 ln) as [m|] eqn:E; [|reflexivity].
    exfalso. apply search_sound in E as (pre & suf & -> & M).
    apply DA_inv in M as (Hi & n & h & Dn & Dh & -> & _).
    destruct pre; [|discriminate].
    now apply (Hno n h).
Qed.

Lemma data_line_must_be_two_numbers_witness :
  let st := mkState (lit "a.cs") (Some (mkCoverage (lit "a.cs") 0%float [])) [] in
  step st (lit "DA:12,3") =
    mkState (lit "a.cs")
            (Some (mkCoverage (lit "a.cs") 0%float [mkLine 12%float true])) [] /\
  step st (lit "DA:12,3,abc") = st.
Proof.
  intros st. split.
  - etransitivity;
      [apply (proj1 (@data_line_must_be_two_numbers
                       st (mkCoverage (lit "a.cs") 0%float []) (lit "DA:12,3")
                       eq_refl eq_refl) (lit "12") (lit "3"))|].
    + split; [discriminate|]. repeat constructor.
    + split; [discriminate|]. repeat constructor.
    + reflexivity.
    + vm_compute. reflexivity.
  - apply (proj2 (@data_line_must_be_two_numbers
                    st (mkCoverage (lit "a.cs") 0%float []) (lit "DA:12,3,abc")
                    eq_refl eq_refl)).
    intros n h Dn [_ Dh] E.
    change (lit "DA:12,3,abc") with (lit "DA:" ++ lit "12" ++ 44%N :: lit "3,abc") in E.
    apply app_inv_head in E.
    apply DA_fields_unique in E as [_ <-];
      [|vm_compute; intuition discriminate|now apply digits_no_comma].
    inversion Dh as [|d1 t1 _ Dh1]; subst. inversion Dh1 as [|d2 t2 H2 _]; subst.
    discriminate H2.
Defined.

(** *** Reports without records *)

(** With no record in progress, only an [SF:] line has an effect. *)
Lemma step_idle st ln :
  currentCoverage st = None -> startsWith ln (lit "SF:") = false -> step st ln = st.
Proof.
  intros Hc Hsf. unfold step. rewrite Hsf, Hc.
  now destruct (startsWith ln (lit "DA:")), (str_eqb ln (lit "end_of_record")).
Qed.

(** X9: a report with no [SF:] line, the empty report among them, leaves the
    map as it was, whatever data and end lines it has. *)
Theorem report_without_source_file_stores_nothing content store :
  Forall (fun l => startsWith l (lit "SF:") = false) (split_nl content) ->
  parseLcovReport content store = store.
Proof.
  unfold parseLcovReport. intros H.
  assert (Hs : forall lns st,
             Forall (fun l => startsWith l (lit "SF:") = false) lns ->
             currentCoverage st = None -> scan lns st = st).
  { induction lns as [|l lns IH]; intros st Hl Hc; [reflexivity|].
    inversion Hl; subst. unfold scan in *. simpl.
    rewrite step_idle by assumption. now apply IH. }
  now rewrite Hs.
Qed.

Lemma report_without_source_file_stores_nothing_witness :
  parseLcovReport (lit "DA:1,1
end_of_record") [] = [].
Proof.
  apply report_without_source_file_stores_nothing.
  repeat constructor.
Defined.

(** *** Whole records *)

Lemma step_inside F c s ln :
  insideRecord ln = true ->
  step (mkState F (Some c) s) ln =
  mkState F (Some (mkCoverage (filePath c) (coverage c) (lines c ++ daEntry ln))) s.
Proof.
  unfold insideRecord, step, daEntry. intros H.
  apply andb_true_iff in H as [H1 H2].
  apply negb_true_iff in H1, H2. rewrite H1, H2. simpl.
  destruct (startsWith ln (lit "DA:")).
  - destruct (regex_match false re_DA ln); [reflexivity|].
    rewrite app_nil_r. now destruct c.
  - rewrite app_nil_r. now destruct c.
Qed.

Lemma scan_inside F s body : forall c,
  Forall (fun l => insideRecord l = true) body ->
  scan body (mkState F (Some c) s) =
  mkState F (Some (mkCoverage (filePath c) (coverage c) (lines c ++ daEntries body))) s.
Proof.
  unfold daEntries.
  induction body as [|l body IH]; intros c Hb.
  - simpl. rewrite app_nil_r. now destruct c.
  - inversion Hb; subst. unfold scan in *. simpl.
    rewrite step_inside by assumption. rewrite IH by assumption. simpl.
    now rewrite <- app_assoc.
Qed.

Lemma startsWith_app p s : startsWith (p ++ s) p = true.
Proof.
  induction p as [|c p IH]; simpl; [now destruct s|].
  now rewrite N.eqb_refl.
Qed.

(** A record from its [SF:] line to its [end_of_record]. *)
Lemma scan_record F body st :
  Forall (fun l => insideRecord l = true) body ->
  scan ((lit "SF:" ++ F) :: body ++ [endOfRecord]) st =
  mkState F None
          (map_set (coverageData st) F
                   (mkCoverage F (percentage (daEntries body)) (daEntries body))).
Proof.
  intros Hb.
  change ((lit "SF:" ++ F) :: body ++ [endOfRecord])
    with ([lit "SF:" ++ F] ++ body ++ [endOfRecord]).
  rewrite !scan_app.
  assert (E1 : scan [lit "SF:" ++ F] st =
               mkState F (Some (mkCoverage F 0%float [])) (coverageData st)).
  { unfold scan. cbn [fold_left].
    rewrite step_SF by apply startsWith_app. reflexivity. }
  rewrite E1, scan_inside by assumption.
  unfold scan. cbn [fold_left filePath coverage lines app].
  rewrite (@step_endOfRecord
             (mkState F (Some (mkCoverage F 0%float (daEntries body))) (coverageData st))
             (mkCoverage F 0%float (daEntries body)) eq_refl).
  cbn [currentFile coverageData]. now rewrite close_percentage.
Qed.

(** A path keeps its record while no record is in progress for it and no
    [SF:] line names it. *)
Lemma scan_get_closed F lns : forall st,
  currentCoverage st = None \/ str_eqb (currentFile st) F = false ->
  Forall (fun l => startsWith l (lit "SF:") = true -> substring 3 l <> F) lns ->
  map_get (coverageData (scan lns st)) F = map_get (coverageData st) F.
Proof.
  induction lns as [|l lns IH]; intros st Hst Hl; [reflexivity|].
  inversion Hl as [|l' lns' Hl1 Hl2]; subst.
  change (scan (l :: lns) st) with (scan lns (step st l)).
  destruct (startsWith l (lit "SF:")) eqn:Hsf.
  - rewrite step_SF by assumption.
    rewrite IH; [reflexivity| |assumption].
    right. simpl. apply str_eqb_neq. now apply Hl1.
  - destruct Hst as [Hc|Hf].
    + rewrite step_idle by assumption. apply IH; auto.
    + change (scan lns (step st l)) with (scan (l :: lns) st).
      now apply scan_get_other.
Qed.

(** X10: a record that runs from [SF:<path>] to [end_of_record], with no
    [SF:] line in between and none for the same path later in the report,
    is what [getCoverageForFile] finds for the path after the parse: the
    entries of its well-formed data lines, in order, and their percentage. *)
Theorem closed_record_is_found_with_its_lines content pre F body post store :
  split_nl content = pre ++ (lit "SF:" ++ F) :: body ++ endOfRecord :: post ->
  Forall (fun l => insideRecord l = true) body ->
  Forall (fun l => startsWith l (lit "SF:") = true -> substring 3 l <> F) post ->
  getCoverageForFile (parseLcovReport content store) F =
  Some (mkCoverage F (percentage (daEntries body)) (daEntries body)).
Proof.
  intros Hsplit Hb Hpost. unfold getCoverageForFile, parseLcovReport.
  rewrite Hsplit.
  replace (pre ++ (lit "SF:" ++ F) :: body ++ endOfRecord :: post)
    with (pre ++ ((lit "SF:" ++ F) :: body ++ [endOfRecord]) ++ post)
    by (simpl; now rewrite <- app_assoc).
  rewrite !scan_app, scan_record by assumption.
  rewrite scan_get_closed; [|now left|assumption].
  simpl. apply map_get_set_eq.
Qed.

Lemma closed_record_is_found_with_its_lines_witness :
  getCoverageForFile
    (parseLcovReport (lit "TN:
SF:src/math.cs
FN:3,Add
DA:1,5
DA:2,0
LF:2
end_of_record
SF:src/other.cs
end_of_record") [])
    (lit "src/math.cs")
  = Some (mkCoverage (lit "src/math.cs") 50%float
                     [mkLine 1%float true; mkLine 2%float false]).
Proof.
  etransitivity;
    [apply (@closed_record_is_found_with_its_lines
              _ [lit "TN:"] (lit "src/math.cs")
              [lit "FN:3,Add"; lit "DA:1,5"; lit "DA:2,0"; lit "LF:2"]
              [lit "SF:src/other.cs"; lit "end_of_record"] [])|].
  - vm_compute. reflexivity.
  - repeat constructor.
  - repeat constructor; intros _; vm_compute; discriminate.
  - vm_compute. reflexivity.
Defined.

End LcovFacts.

(** ** Project files *)

Module ProjectFacts.

Import Project RegexFacts.

(** The first piece of a split holds no separator and only code units of the
    string. *)
Lemma firstOf_splitOn c s :
  ~ In c (firstOf (splitOn c s)) /\
  forall d, In d (firstOf (splitOn c s)) -> In d s.
Proof.
  induction s as [|a s [IH1 IH2]]; simpl.
  - split; [intros []|intros d []].
  - destruct (N.eqb a c) eqn:E; simpl.
    + split; [intros []|intros d []].
    + apply N.eqb_neq in E.
      destruct (splitOn c s) as [|l ls]; simpl in *.
      * split; [intros [H|[]]; congruence|intros d [H|[]]; auto].
      * split; [intros [H|H]; [congruence|auto]|].
        intros d [H|H]; auto.
Qed.

(** What the group of either pattern holds: at least one code unit, none of
    them [<]. *)
Lemma framework_group open close i suf y :
  Matches true
          (Str open >> Star (notChar 62) >> Chr 62
           >> Grp 1 (Plus (notChar 60)) >> Str close)%re
          (MState i suf []) y ->
  group 1 y <> [] /\ ~ In 60%N (group 1 y).
Proof.
  intros M.
  apply Matches_Seq_inv in M as (x0 & Mo & M).
  apply Matches_Str_canon in Mo as (t0 & s0 & _ & _ & ->).
  apply Matches_Seq_inv in M as (x1 & Ms & M).
  apply Matches_Star_Cls_inv in Ms as (a & s1 & _ & _ & ->).
  apply Matches_Seq_inv in M as (x2 & Mc & M).
  apply Matches_Chr_canon in Mc as (d & s2 & _ & _ & ->).
  apply Matches_Seq_inv in M as (x3 & Mg & Mc).
  apply Matches_Grp_inv in Mg as (y0 & Mg & ->).
  apply Matches_Plus_Cls_inv in Mg as (t & s3 & Ht & Dt & Hs3 & ->).
  apply Matches_Str_canon in Mc as (t1 & s4 & _ & _ & ->).
  simpl in Hs3. subst s2.
  unfold group, capture, advance. simpl.
  replace (firstn _ (t ++ s3)) with t.
  - split; [assumption|].
    intros Hin. rewrite Forall_forall in Dt. apply Dt in Hin.
    discriminate.
  - symmetry. rewrite firstn_app.
    replace (_ - List.length t) with 0 by lia.
    rewrite firstn_all2 by lia. simpl. apply app_nil_r.
Qed.

Lemma matched_framework r content m :
  r = re_targetFramework \/ r = re_targetFrameworks ->
  regex_match true r content = Some m ->
  group 1 m <> [] /\ ~ In 60%N (group 1 m).
Proof.
  intros Hr H. unfold regex_match in H.
  apply search_sound in H as (pre & suf & _ & M).
  destruct Hr as [-> | ->]; now apply framework_group in M.
Qed.

(** The framework is read off the group up to the first [;]. *)
Lemma detectFramework_cases content :
  (exists m, (regex_match true re_targetFramework content = Some m \/
              regex_match true re_targetFramework content = None /\
              regex_match true re_targetFrameworks content = Some m) /\
             detectFramework content = firstOf (splitOn 59 (group 1 m))) \/
  (regex_match true re_targetFramework content = None /\
   regex_match true re_targetFrameworks content = None /\
   (detectFramework content = lit "net48" \/
    detectFramework content = lit "netstandard2.1" \/
    detectFramework content = [])).
Proof.
  unfold detectFramework.
  destruct (regex_match true re_targetFramework content) as [m|] eqn:E1.
  - left. exists m. auto.
  - destruct (regex_match true re_targetFrameworks content) as [m|] eqn:E2.
    + left. exists m. auto.
    + right. repeat split.
      destruct (_ || _); [auto|].
      destruct (includes _ _); auto.
Qed.

(** X11: whatever the project file holds, the record [getProjectInfo]
    builds for it has one of the four known types, never [unknown]; it is
    flagged as a test project exactly when its type is [test]; and its
    target framework holds neither [;] nor [<], so one framework at most
    and no markup. *)
Theorem project_info_is_coherent baseName projectPath content :
  type (getProjectInfo baseName projectPath content) <> Unknown /\
  (isTestProject (getProjectInfo baseName projectPath content) = true <->
   type (getProjectInfo baseName projectPath content) = TestProject) /\
  ~ In 59%N (targetFramework (getProjectInfo baseName projectPath content)) /\
  ~ In 60%N (targetFramework (getProjectInfo baseName projectPath content)).
Proof.
  unfold getProjectInfo. simpl.
  assert (Ht : fst (detectType content) <> Unknown /\
               (snd (detectType content) = true <->
                fst (detectType content) = TestProject)).
  { unfold detectType.
    destruct (_ || _); [simpl; split; [discriminate|tauto]|].
    destruct (includes _ _); [simpl; split; [discriminate|split; discriminate]|].
    destruct (includes _ _); simpl; split; try discriminate;
      split; discriminate. }
  destruct Ht as [Ht1 Ht2].
  split; [assumption|]. split; [assumption|].
  destruct (detectFramework_cases content)
    as [(m & Hm & ->)|(_ & _ & [-> | [-> | ->]])].
  - assert (Hg : group 1 m <> [] /\ ~ In 60%N (group 1 m)).
    { destruct Hm as [Hm|[_ Hm]];
        [apply (@matched_framework re_targetFramework content m)
        |apply (@matched_framework re_targetFrameworks content m)]; auto. }
    destruct (firstOf_splitOn 59 (group 1 m)) as [H1 H2].
    split; [assumption|]. intros Hin. apply H2 in Hin. now apply Hg.
  - split; vm_compute; intuition discriminate.
  - split; vm_compute; intuition discriminate.
  - split; intros [].
Qed.

End ProjectFacts.

(** ** Project detection *)

Module DetectorFacts.

Import Project Detector.

Lemma filter_first (A : Type) (f : A -> bool) (l : list A) p r :
  filter f l = p :: r ->
  exists before after,
    l = before ++ p :: after /\ f p = true /\
    Forall (fun q => f q = false) before.
Proof.
  induction l as [|a l IH]; simpl; [discriminate|].
  destruct (f a) eqn:Ha.
  - intros E. injection E as -> _. exists [], l. auto.
  - intros E. destruct (IH E) as (before & after & -> & Hp & Hb).
    exists (a :: before), after. auto.
Qed.

Lemma filter_none (A : Type) (f : A -> bool) (l : list A) :
  filter f l = [] -> Forall (fun q => f q = false) l.
Proof.
  induction l as [|a l IH]; simpl; [constructor|].
  destruct (f a) eqn:Ha; [discriminate|]. auto.
Qed.

(** Every project the loop adds comes from a listed file that is no
    solution, exists and could be read. *)
Lemma parseFile_fold w all : forall files acc,
  (forall f, In f files -> In f all) ->
  Forall (fun q => In (path q) all /\
                   endsWith (path q) (lit ".sln") = false /\
                   existsSync w (path q) = true /\
                   exists content,
                     readFile w (path q) = Some content /\
                     q = getProjectInfo (baseName w) (path q) content) acc ->
  Forall (fun q => In (path q) all /\
                   endsWith (path q) (lit ".sln") = false /\
                   existsSync w (path q) = true /\
                   exists content,
                     readFile w (path q) = Some content /\
                     q = getProjectInfo (baseName w) (path q) content)
         (fold_left (parseFile w) files acc).
Proof.
  induction files as [|f files IH]; intros acc Hin Hacc; [exact Hacc|].
  simpl. apply IH; [intros g Hg; apply Hin; now right|].
  unfold parseFile.
  destruct (endsWith f (lit ".sln")) eqn:Hs; [assumption|].
  destruct (existsSync w f) eqn:He; [|assumption]. simpl.
  destruct (readFile w f) as [content|] eqn:Hr; [|assumption].
  apply Forall_app. split; [assumption|].
  constructor; [|constructor]. simpl.
  split; [apply Hin; now left|]. split; [assumption|]. split; [assumption|].
  now exists content.
Qed.

(** X12: with automatic detection on and a workspace folder open,
    [detectProjects] lists only projects built from files of the search
    that are no [.sln] files, exist and can be read; when it lists none, the
    current project is left as it was, even though the list is now empty;
    otherwise the current project is the first listed project that is no
    test project, or the first listed project when all are test projects. *)
Theorem detection_prefers_first_non_test_project w st :
  autoDetect w = true -> hasFolders w = true ->
  Forall (fun q => In (path q) (projectFiles w) /\
                   endsWith (path q) (lit ".sln") = false /\
                   existsSync w (path q) = true /\
                   exists content,
                     readFile w (path q) = Some content /\
                     q = getProjectInfo (baseName w) (path q) content)
         (projects (detectProjects w st)) /\
  (projects (detectProjects w st) = [] ->
   currentProject (detectProjects w st) = currentProject st) /\
  (projects (detectProjects w st) <> [] ->
   exists p before after,
     currentProject (detectProjects w st) = Some p /\
     projects (detectProjects w st) = before ++ p :: after /\
     Forall (fun q => isTestProject q = true) before /\
     (isTestProject p = true ->
      before = [] /\ Forall (fun q => isTestProject q = true) after)).
Proof.
  intros Ha Hf.
  pose proof (@parseFile_fold w (projectFiles w) (projectFiles w) []
                              (fun f H => H) (Forall_nil _)) as Hall.
  unfold detectProjects. rewrite Ha, Hf. cbn [negb].
  destruct (projectFiles w) as [|f0 files] eqn:Ef.
  { split; [constructor|]. split; [reflexivity|simpl; congruence]. }
  destruct (fold_left (parseFile w) (f0 :: files) []) as [|first others] eqn:Ep.
  { split; [constructor|]. split; [reflexivity|simpl; congruence]. }
  cbv zeta.
  destruct (filter (fun p => negb (isTestProject p)) (first :: others))
    as [|p r] eqn:Efl;
    cbn [projects currentProject];
    (split; [exact Hall|]); (split; [discriminate|]); intros _.
  - apply filter_none in Efl.
    assert (Ht : Forall (fun q => isTestProject q = true) (first :: others)).
    { eapply Forall_impl; [|exact Efl]. simpl. intros q Hq.
      now apply negb_false_iff in Hq. }
    exists first, [], others. simpl.
    split; [reflexivity|]. split; [reflexivity|]. split; [constructor|].
    intros _. split; [reflexivity|]. now inversion Ht.
  - apply filter_first in Efl as (before & after & E & Hp & Hb).
    exists p, before, after. simpl.
    split; [reflexivity|]. split; [exact E|]. split.
    + eapply Forall_impl; [|exact Hb]. simpl. intros q Hq.
      now apply negb_false_iff in Hq.
    + intros Hp'. rewrite Hp' in Hp. discriminate.
Qed.

Lemma detection_prefers_first_non_test_project_witness :
  let w := mkWorkspace true true
             [lit "tests/App.Tests.csproj"; lit "App.sln"; lit "src/App.csproj";
              lit "gone/Old.csproj"]
             (fun f => negb (str_eqb f (lit "gone/Old.csproj")))
             (fun f => if str_eqb f (lit "tests/App.Tests.csproj")
                       then Some (lit "<PackageReference Include='xunit' />")
                       else Some (lit "<OutputType>Exe</OutputType><TargetFramework>net8.0</TargetFramework>"))
             (fun f => f) in
  List.map path (projects (detectProjects w (mkState [] None)))
    = [lit "tests/App.Tests.csproj"; lit "src/App.csproj"] /\
  option_map path (currentProject (detectProjects w (mkState [] None)))
    = Some (lit "src/App.csproj") /\
  Forall (fun q => In (path q) (projectFiles w) /\
                   endsWith (path q) (lit ".sln") = false /\
                   existsSync w (path q) = true /\
                   exists content,
                     readFile w (path q) = Some content /\
                     q = getProjectInfo (baseName w) (path q) content)
         (projects (detectProjects w (mkState [] None))).
Proof.
  intros w.
  split; [vm_compute; reflexivity|]. split; [vm_compute; reflexivity|].
  apply (@detection_prefers_first_non_test_project w (mkState [] None));
    reflexivity.
Defined.

End DetectorFacts.

(** ** Launch profile arguments *)

Module LaunchProfileFacts.

Import LaunchProfile.











End LaunchProfileFacts.

(** ** The notice of a failed build *)

Module BuildNoticeFacts.

Import BuildNotice TextFacts.
Import TestRunner(nonBlank).

Lemma newline_is_space : isSpace 10 = true.
Proof. reflexivity. Qed.

Lemma split_nl_no_newline s : Forall (fun l => ~ In 10%N l) (split_nl s).
Proof.
  induction s as [|d s IH]; simpl.
  - constructor; [intros []|constructor].
  - destruct (N.eqb d 10) eqn:E.
    + constructor; [intros []|assumption].
    + apply N.eqb_neq in E.
      destruct (split_nl s) as [|l ls].
      * constructor; [intros [H|[]]; congruence|constructor].
      * inversion IH as [|l' ls' Hl Hls]; subst.
        constructor; [intros [H|H]; [congruence|auto]|assumption].
Qed.

Lemma split_nl_covers c s :
  In c s -> c <> 10%N -> exists l, In l (split_nl s) /\ In c l.
Proof.
  intros Hin Hc. induction s as [|d s IH]; [destruct Hin|]. simpl.
  destruct (N.eqb d 10) eqn:E.
  - apply N.eqb_eq in E. destruct Hin as [->|Hin]; [congruence|].
    destruct (IH Hin) as (l & Hl & Hcl). exists l. split; [now right|assumption].
  - destruct (split_nl s) as [|l ls] eqn:Es.
    + destruct Hin as [->|Hin].
      * exists [c]. split; now left.
      * destruct (IH Hin) as (l & [] & _).
    + destruct Hin as [->|Hin].
      * exists (c :: l). split; now left.
      * destruct (IH Hin) as (l' & [<-|Hl'] & Hcl).
        -- exists (d :: l). split; [now left|now right].
        -- exists l'. split; [now right|assumption].
Qed.

Lemma split_nl_incl c s : forall l,
  In l (split_nl s) -> In c l -> In c s.
Proof.
  induction s as [|d s IH]; simpl; intros l Hl Hc.
  - destruct Hl as [<-|[]]. destruct Hc.
  - destruct (N.eqb d 10) eqn:Ed.
    + destruct Hl as [<-|Hl]; [destruct Hc|]. right. now apply (IH l).
    + destruct (split_nl s) as [|l0 ls0].
      * destruct Hl as [<-|[]]. destruct Hc as [->|[]]. now left.
      * destruct Hl as [<-|Hl].
        -- destruct Hc as [->|Hc]; [now left|right].
           apply (IH l0); [now left|assumption].
        -- right. apply (IH l); [now right|assumption].
Qed.

Lemma dropWhile_keeps p c s :
  In c s -> p c = false -> In c (dropWhile p s).
Proof.
  intros Hin Hc. induction s as [|d s IH]; [destruct Hin|]. simpl.
  destruct (p d) eqn:Hd; [|assumption].
  destruct Hin as [->|Hin]; [congruence|auto].
Qed.

Lemma dropWhile_incl p c s : In c (dropWhile p s) -> In c s.
Proof.
  induction s as [|d s IH]; simpl; [auto|].
  destruct (p d); [now right; apply IH|auto].
Qed.

Lemma trim_keeps c s : In c s -> isSpace c = false -> In c (trim s).
Proof.
  intros Hin Hc. unfold trim. apply in_rev. rewrite rev_involutive.
  apply dropWhile_keeps; [|assumption]. apply -> in_rev.
  now apply dropWhile_keeps.
Qed.

Lemma trim_incl c s : In c (trim s) -> In c s.
Proof.
  unfold trim. intros H. apply in_rev in H. apply dropWhile_incl in H.
  apply in_rev in H. now apply dropWhile_incl in H.
Qed.

Lemma trim_visible s : visible s <-> visible (trim s).
Proof.
  split; intros (c & Hin & Hc); exists c; split; auto using trim_keeps, trim_incl.
Qed.

Lemma nonBlank_visible l : nonBlank l = true <-> visible l.
Proof.
  unfold nonBlank. split.
  - destruct (trim l) as [|d r] eqn:E; [discriminate|]. intros _.
    unfold trim in E.
    destruct (dropWhile isSpace (rev (dropWhile isSpace l))) as [|d' r'] eqn:E';
      [discriminate|].
    exists d'. split; [|exact (dropWhile_head _ _ E')].
    apply (@dropWhile_incl isSpace), in_rev, (@dropWhile_incl isSpace).
    rewrite E'. now left.
  - intros (c & Hin & Hc). pose proof (@trim_keeps c l Hin Hc) as H.
    now destruct (trim l).
Qed.

Lemma joinWith_without c sep ls :
  ~ In c sep -> Forall (fun l => ~ In c l) ls -> ~ In c (joinWith sep ls).
Proof.
  intros Hsep. induction 1 as [|l ls Hl Hls IH]; [intros []|].
  destruct ls as [|l' ls']; [exact Hl|].
  change (joinWith sep (l :: l' :: ls')) with (l ++ sep ++ joinWith sep (l' :: ls')).
  intros Hin. apply in_app_or in Hin as [Hin|Hin]; [auto|].
  apply in_app_or in Hin as [Hin|Hin]; auto.
Qed.

Lemma joinWith_head c sep l ls : In c l -> In c (joinWith sep (l :: ls)).
Proof.
  intros Hin. destruct ls as [|l' ls']; [exact Hin|].
  change (joinWith sep (l :: l' :: ls')) with (l ++ sep ++ joinWith sep (l' :: ls')).
  apply in_or_app. now left.
Qed.

Lemma Forall_firstn (A : Type) (P : A -> Prop) n : forall l,
  Forall P l -> Forall P (firstn n l).
Proof.
  induction n as [|n IH]; intros l H; [constructor|].
  destruct H; simpl; constructor; auto.
Qed.

(** The short form of a message that shows something holds no line feed and
    shows something; a blank message is passed on as it is. *)
Lemma shortError_spec errorMsg :
  (visible errorMsg ->
   ~ In 10%N (shortError errorMsg) /\ visible (shortError errorMsg)) /\
  (~ visible errorMsg -> shortError errorMsg = errorMsg).
Proof.
  unfold shortError.
  destruct (filter nonBlank (split_nl errorMsg)) as [|l ls] eqn:E.
  - split; [|reflexivity].
    intros (c & Hin & Hc). exfalso.
    assert (Hc10 : c <> 10%N) by (intros ->; discriminate).
    destruct (@split_nl_covers c errorMsg Hin Hc10) as (l & Hl & Hcl).
    assert (Hf : In l (filter nonBlank (split_nl errorMsg))).
    { apply filter_In. split; [assumption|].
      apply nonBlank_visible. now exists c. }
    rewrite E in Hf. destruct Hf.
  - assert (Hl : In l (filter nonBlank (split_nl errorMsg)))
      by (rewrite E; now left).
    apply filter_In in Hl as [Hl Hnb]. apply nonBlank_visible in Hnb.
    split.
    + intros _. split.
      * apply joinWith_without; [vm_compute; intuition discriminate|].
        apply Forall_firstn. rewrite <- E.
        apply Forall_forall. intros x Hx. apply filter_In in Hx as [Hx _].
        pose proof (split_nl_no_newline errorMsg) as H.
        rewrite Forall_forall in H. now apply H.
      * destruct Hnb as (c & Hin & Hc). exists c. split; [|assumption].
        simpl firstn. now apply joinWith_head.
    + intros Hv. exfalso. apply Hv.
      destruct Hnb as (c & Hin & Hc). exists c. split; [|assumption].
      exact (@split_nl_incl c errorMsg l Hl Hin).
Qed.

(** X14: the text [buildProject] reports for a failed command is never
    empty, so neither fallback [Build failed] is ever used: it is the
    trimmed output and error output, one above the other, or, when that is
    empty, the first non-empty one of the output, the error output, the
    message of the error and [Unknown error]. *)
Theorem build_error_is_never_empty stdout0 stderr0 message0 :
  buildError (commandFailure stdout0 stderr0 message0) <> [] /\
  buildError (commandFailure stdout0 stderr0 message0) =
    orElse (trim (orEmpty stdout0 ++ 10%N :: orEmpty stderr0))
           (orElse (orEmpty stdout0)
                   (orElse (orEmpty stderr0)
                           (orElse (orEmpty message0) (lit "Unknown error")))) /\
  buildFailedNotice stdout0 stderr0 message0 =
    shortError (buildError (commandFailure stdout0 stderr0 message0)).
Proof.
  assert (Hne : forall a b : jsstring, b <> [] -> orElse a b <> []).
  { intros [|c a] b Hb; [exact Hb|discriminate]. }
  assert (Hm : message (commandFailure stdout0 stderr0 message0) <> []).
  { unfold commandFailure. cbv zeta. cbn [message].
    do 3 apply Hne. discriminate. }
  assert (Hb : buildError (commandFailure stdout0 stderr0 message0) <> []).
  { unfold buildError. apply Hne.
    destruct (message _); [congruence|discriminate]. }
  split; [exact Hb|]. split.
  - unfold buildError.
    replace (orElse (message (commandFailure stdout0 stderr0 message0))
                    (lit "Build failed"))
      with (message (commandFailure stdout0 stderr0 message0))
      by (destruct (message _); [congruence|reflexivity]).
    reflexivity.
  - unfold buildFailedNotice.
    destruct (buildError _); [congruence|reflexivity].
Qed.

(** Every code unit of a joined piece is in the join. *)
Lemma joinWith_keeps c sep l ls :
  In l ls -> In c l -> In c (joinWith sep ls).
Proof.
  intros Hl Hc. induction ls as [|l0 ls IH]; [destruct Hl|].
  destruct Hl as [->|Hl]; [now apply joinWith_head|].
  destruct ls as [|l1 ls]; [destruct Hl|].
  change (joinWith sep (l0 :: l1 :: ls))
    with (l0 ++ sep ++ joinWith sep (l1 :: ls)).
  apply in_or_app. right. apply in_or_app. right. now apply IH.
Qed.

(** A message that shows something has a line that is not blank, so its
    short form is the join of the first such lines. *)
Lemma shortError_joins errorMsg :
  visible errorMsg ->
  shortError errorMsg =
  joinWith (lit " | ") (firstn 3 (filter nonBlank (split_nl errorMsg))).
Proof.
  intros (c & Hin & Hc). unfold shortError.
  destruct (filter nonBlank (split_nl errorMsg)) as [|l ls] eqn:E; [|reflexivity].
  exfalso.
  assert (Hc10 : c <> 10%N) by (intros ->; discriminate).
  destruct (@split_nl_covers c errorMsg Hin Hc10) as (l & Hl & Hcl).
  assert (Hf : In l (filter nonBlank (split_nl errorMsg))).
  { apply filter_In. split; [assumption|].
    apply nonBlank_visible. now exists c. }
  rewrite E in Hf. destruct Hf.
Qed.

(** X15: when the failed build printed anything but white space, on the
    output or on the error output, the notice shows the first three lines
    that are not blank (or the one or two there are) of the two outputs, put
    one above the other and trimmed, joined by a bar between two spaces.
    Lines are what the line feed separates, and nothing else: the notice
    holds no line feed and is not blank, and it keeps every other code unit
    of those lines, a carriage return before the line feed among them. *)
Theorem build_notice_has_no_line_feed stdout0 stderr0 message0 :
  visible (orEmpty stdout0) \/ visible (orEmpty stderr0) ->
  buildFailedNotice stdout0 stderr0 message0 =
    joinWith (lit " | ")
             (firstn 3 (filter nonBlank
                               (split_nl (trim (orEmpty stdout0
                                                ++ 10%N :: orEmpty stderr0))))) /\
  ~ In 10%N (buildFailedNotice stdout0 stderr0 message0) /\
  visible (buildFailedNotice stdout0 stderr0 message0) /\
  (forall l c,
      In l (firstn 3 (filter nonBlank
                             (split_nl (trim (orEmpty stdout0
                                              ++ 10%N :: orEmpty stderr0))))) ->
      In c l -> In c (buildFailedNotice stdout0 stderr0 message0)).
Proof.
  intros Hv.
  assert (Hall : visible (trim (orEmpty stdout0 ++ 10%N :: orEmpty stderr0))).
  { apply -> trim_visible.
    destruct Hv as [(c & Hin & Hc)|(c & Hin & Hc)]; exists c;
      (split; [|assumption]); apply in_or_app; [now left|right; now right]. }
  assert (E : buildFailedNotice stdout0 stderr0 message0 =
              shortError (trim (orEmpty stdout0 ++ 10%N :: orEmpty stderr0))).
  { unfold buildFailedNotice, buildError. simpl.
    destruct (trim (orEmpty stdout0 ++ 10%N :: orEmpty stderr0)) as [|c t];
      [destruct Hall as (c & [] & _)|reflexivity]. }
  rewrite E. split; [now apply shortError_joins|].
  split; [now apply shortError_spec|]. split; [now apply shortError_spec|].
  intros l c Hl Hc. rewrite shortError_joins by assumption.
  now apply (@joinWith_keeps c (lit " | ") l).
Qed.

Lemma build_notice_has_no_line_feed_witness :
  let out := lit "error A" ++ 13%N :: 10%N :: lit "error B" ++ [13%N; 10%N] in
  buildFailedNotice (Some out) None (Some (lit "Command failed: dotnet build"))
  = lit "error A" ++ 13%N :: lit " | error B"
  /\ ~ In 10%N (buildFailedNotice (Some out) None
                                  (Some (lit "Command failed: dotnet build")))
  /\ In 13%N (buildFailedNotice (Some out) None
                                (Some (lit "Command failed: dotnet build"))).
Proof.
  intros out.
  assert (Hv : visible (orEmpty (Some out)) \/ visible (orEmpty None)).
  { left. exists 101%N. split; [vm_compute; tauto|reflexivity]. }
  destruct (@build_notice_has_no_line_feed
              (Some out) None (Some (lit "Command failed: dotnet build")) Hv)
    as (E & H10 & _ & Hk).
  split; [rewrite E; vm_compute; reflexivity|]. split; [exact H10|].
  apply (Hk (lit "error A" ++ [13%N]) 13%N); vm_compute; tauto.
Defined.

End BuildNoticeFacts.
